(** * Jobify ML core: label alignment, batching, evaluation, text extraction

    A shallow embedding of the Python sources under [ml/src] and the
    properties the specification states about them. *)

From Stdlib Require Import ZArith NArith Ascii String.
From stdpp Require Import base option list gmap strings pretty.

Open Scope Z_scope.

(** ** Python exceptions and fallible computations *)

(** A Python [str] is a sequence of Unicode code points. *)
Abbreviation str := (list N).

(** Code points of an ASCII literal. *)
Definition py (s : string) : str :=
  List.map N_of_ascii (list_ascii_of_string s).

Inductive exn : Type :=
  | IndexError                      (* list / ndarray index out of range *)
  | KeyError (k : Z)                (* missing dict key *)
  | TypeError (msg : string)        (* bad call: unexpected keyword, ... *)
  | ValueError (msg : str)          (* raised by the code itself *)
  | TensorValueError                (* raised by tensor conversion *)
  | ExternalError (tag : string).   (* failure inside a collaborator *)

Inductive result (A : Type) : Type :=
  | Ok (a : A)
  | Raise (e : exn).
Arguments Ok {A} a.
Arguments Raise {A} e.

#[global] Instance result_ret : MRet result := fun _ a => Ok a.
#[global] Instance result_bind : MBind result := fun _ _ k m =>
  match m with
  | Ok a => k a
  | Raise e => Raise e
  end.
#[global] Instance result_fmap : FMap result := fun _ _ f m =>
  match m with
  | Ok a => Ok (f a)
  | Raise e => Raise e
  end.

(** [xs[i]] for a non-negative index. *)
Definition getitem {A} (xs : list A) (i : nat) : result A :=
  match xs !! i with
  | Some x => Ok x
  | None => Raise IndexError
  end.

(** ** utils/encoder.py *)

Module Encoder.

(** What the tokenizer call returns: sub-word ids, attention bits and the
    [word_ids()] map (None for special tokens). *)
Record BatchEncoding : Type := {
  tok_input_ids : list Z;
  tok_attention_mask : list Z;
  tok_word_ids : list (option nat)
}.

(** The encoding after the two keys 'labels' and 'label_mask' are stored. *)
Record Encoding : Type := {
  input_ids : list Z;
  attention_mask : list Z;
  labels : list Z;
  label_mask : list Z
}.

(** Loop state: the two accumulators and [prev_word_id]. *)
Record loop_state : Type := {
  st_labels : list Z;
  st_mask : list Z;
  prev_word_id : option nat
}.

Definition init_state : loop_state :=
  {| st_labels := []; st_mask := []; prev_word_id := None |}.

(** One iteration of [for word_id in word_ids]. *)
Definition step (tags : list Z) (st : loop_state) (word_id : option nat)
  : result loop_state :=
  match word_id with
  | None =>
      Ok {| st_labels := st_labels st ++ [0];
            st_mask := st_mask st ++ [0];
            prev_word_id := word_id |}
  | Some w =>
      if decide (word_id ≠ prev_word_id st) then
        t ← getitem tags w;
        Ok {| st_labels := st_labels st ++ [t];
              st_mask := st_mask st ++ [1];
              prev_word_id := word_id |}
      else
        Ok {| st_labels := st_labels st ++ [0];
              st_mask := st_mask st ++ [0];
              prev_word_id := word_id |}
  end.

Fixpoint loop (tags : list Z) (st : loop_state) (word_ids : list (option nat))
  : result loop_state :=
  match word_ids with
  | [] => Ok st
  | word_id :: rest => st' ← step tags st word_id; loop tags st' rest
  end.

Definition tokenize_and_align_labels
    (tokenizer : list str → BatchEncoding) (tokens : list str) (tags : list Z)
  : result Encoding :=
  let tokenized := tokenizer tokens in
  let word_ids := tok_word_ids tokenized in
  st ← loop tags init_state word_ids;
  Ok {| input_ids := tok_input_ids tokenized;
        attention_mask := tok_attention_mask tokenized;
        labels := st_labels st;
        label_mask := st_mask st |}.

(** What one position receives, given the word id before it. *)
Definition emitted (tags : list Z) (prev wid : option nat) (lab msk : Z) : Prop :=
  match wid with
  | None => lab = 0 ∧ msk = 0
  | Some w =>
      if decide (prev = Some w) then lab = 0 ∧ msk = 0
      else tags !! w = Some lab ∧ msk = 1
  end.

(** The word id seen just before position [i], [p] before position 0. *)
Definition prev_from (p : option nat) (word_ids : list (option nat)) (i : nat)
  : option nat :=
  match i with
  | O => p
  | S j => default None (word_ids !! j)
  end.

(** The same with the loop's initial [prev_word_id = None]. *)
Definition prev_at (word_ids : list (option nat)) (i : nat) : option nat :=
  prev_from None word_ids i.

(** Position [i] holds the first sub-word of word [w]. *)
Definition first_subword (word_ids : list (option nat)) (i w : nat) : Prop :=
  word_ids !! i = Some (Some w) ∧ prev_at word_ids i ≠ Some w.

(** Tokenizer contract: every word id points into the token list. *)
Definition word_ids_in_range (word_ids : list (option nat)) (n : nat) : Prop :=
  ∀ i w, word_ids !! i = Some (Some w) → (w < n)%nat.

(** Tokenizer contract: the sub-words of one word are adjacent. *)
Definition word_ids_contiguous (word_ids : list (option nat)) : Prop :=
  ∀ i j k w, (i < j)%nat → (j < k)%nat →
    word_ids !! i = Some (Some w) → word_ids !! k = Some (Some w) →
    word_ids !! j = Some (Some w).

(** A small tokenizer for the examples: [CLS], one piece per word of at most
    four characters and two pieces for a longer word, [SEP]; the word pieces
    are cut so that at most [max_length] positions are returned. *)
Definition pieces_of (iw : nat * str) : list (option nat * Z) :=
  let '(i, w) := iw in
  if decide (length w ≤ 4)%nat
  then [(Some i, 1000 + Z.of_nat (length w))]
  else [(Some i, 1000 + Z.of_nat (length w)); (Some i, 2000)].

Definition sample_tokenizer (max_length : nat) (tokens : list str)
  : BatchEncoding :=
  let body := take (max_length - 2) (imap (fun i w => (i, w)) tokens ≫= pieces_of) in
  let all := (None, 101) :: body ++ [(None, 102)] in
  {| tok_input_ids := all.*2;
     tok_attention_mask := (fun _ => 1) <$> all;
     tok_word_ids := all.*1 |}.

Definition sample_tokens : list str := [py "data"; py "engineering"; py "sql"].
Definition sample_tags : list Z := [1; 2; 0].

End Encoder.


(** ** utils/dataset.py *)

Module Dataset.

(** A rank-2 tensor or ndarray, row by row. *)
Abbreviation matrix := (list (list Z)).

(** One element of the batched dataset: the tuple
    ({"input_ids", "attention_mask"}, labels, weights). *)
Record Batch : Type := {
  b_input_ids : matrix;
  b_attention_mask : matrix;
  b_labels : matrix;
  b_weights : matrix
}.

(** One element before batching. *)
Record Element : Type := {
  e_input_ids : list Z;
  e_attention_mask : list Z;
  e_labels : list Z;
  e_weights : list Z
}.

Definition rectangular (rows : matrix) : bool :=
  match rows with
  | [] => true
  | r :: rest => forallb (fun r' => Nat.eqb (length r') (length r)) rest
  end.

(** Conversion of a nested Python list to a tensor: the rows must have one
    length. *)
Definition convert_to_tensor (rows : matrix) : result matrix :=
  if rectangular rows then Ok rows else Raise TensorValueError.

(** [tf.data.Dataset.from_tensor_slices]: each component is converted to a
    tensor and sliced along its first axis. The four components are built
    from one list of encodings, so they have the same number of rows. *)
Definition from_tensor_slices (input_ids attention labels weights : matrix)
  : result (list Element) :=
  t_ids ← convert_to_tensor input_ids;
  t_att ← convert_to_tensor attention;
  t_lab ← convert_to_tensor labels;
  t_wgt ← convert_to_tensor weights;
  Ok (zip_with (fun '(i, a) '(l, w) =>
                  {| e_input_ids := i; e_attention_mask := a;
                     e_labels := l; e_weights := w |})
               (zip t_ids t_att) (zip t_lab t_wgt)).

(** Consecutive groups of [size] elements; the last may be shorter. *)
Fixpoint chunks_fuel {A} (fuel size : nat) (xs : list A) : list (list A) :=
  match fuel, xs with
  | _, [] => []
  | O, _ => []
  | S fuel', _ => take size xs :: chunks_fuel fuel' size (drop size xs)
  end.

Definition chunks {A} (size : nat) (xs : list A) : list (list A) :=
  chunks_fuel (length xs) size xs.

Definition max_length (rows : matrix) : nat :=
  foldr (fun r m => Nat.max (length r) m) 0%nat rows.

(** Padding of one component with [padded_shapes = [None]]: every row is
    extended to the longest row of the batch with the padding value. *)
Definition pad_to (n : nat) (value : Z) (row : list Z) : list Z :=
  row ++ replicate (n - length row) value.

Definition pad_component (value : Z) (rows : matrix) : matrix :=
  pad_to (max_length rows) value <$> rows.

Definition pad_batch (pad_ids pad_att pad_lab pad_wgt : Z) (es : list Element)
  : Batch :=
  {| b_input_ids := pad_component pad_ids (e_input_ids <$> es);
     b_attention_mask := pad_component pad_att (e_attention_mask <$> es);
     b_labels := pad_component pad_lab (e_labels <$> es);
     b_weights := pad_component pad_wgt (e_weights <$> es) |}.

(** [ds.padded_batch(batch_size, padded_shapes, padding_values)] with the
    default [drop_remainder=False]; a batch size below 1 is rejected. The
    element types of the tensors are not modelled: the padding value 0.0 of
    the weights is the integer 0 here. *)
Definition padded_batch (ds : list Element) (batch_size : Z)
    (pad_ids pad_att pad_lab pad_wgt : Z) : result (list Batch) :=
  if decide (batch_size ≤ 0) then Raise TensorValueError
  else Ok (pad_batch pad_ids pad_att pad_lab pad_wgt
             <$> chunks (Z.to_nat batch_size) ds).

(** [make_dataset(encodings, batch_size=16)]; [prefetch] only schedules
    the production of the same batches. *)
Definition make_dataset (encodings : list Encoder.Encoding) (batch_size : Z)
  : result (list Batch) :=
  let input_ids := Encoder.input_ids <$> encodings in
  let attention := Encoder.attention_mask <$> encodings in
  let labels := Encoder.labels <$> encodings in
  let weights := Encoder.label_mask <$> encodings in
  ds ← from_tensor_slices input_ids attention labels weights;
  padded_batch ds batch_size 0 0 0 0.

Definition default_batch_size : Z := 16.

End Dataset.

(** ** utils/evaluation.py *)

Module Evaluation.
Import Dataset.

Section aggregator.

(** Class scores of the model and their order. *)
Context {score : Type} (score_ltb : score → score → bool).

(** The model in inference mode: per example, per position, one score per
    class. *)
Variable model : matrix → matrix → list (list (list score)).

Fixpoint argmax_from (best : score) (best_i i : nat) (xs : list score) : nat :=
  match xs with
  | [] => best_i
  | x :: rest =>
      if score_ltb best x then argmax_from x i (S i) rest
      else argmax_from best best_i (S i) rest
  end.

(** Index of the first largest score. *)
Definition argmax (xs : list score) : Z :=
  match xs with
  | [] => 0
  | x :: rest => Z.of_nat (argmax_from x 0 1 rest)
  end.

(** [tf.argmax(logits, axis=-1).numpy()] *)
Definition predict (b : Batch) : matrix :=
  (fun row : list (list score) => argmax <$> row)
    <$> model (b_input_ids b) (b_attention_mask b).

Definition shape0 (m : matrix) : nat := length m.
Definition shape1 (m : matrix) : nat :=
  match m with
  | [] => 0
  | r :: _ => length r
  end.

(** [m[i, j]] *)
Definition at2 (m : matrix) (i j : nat) : result Z :=
  row ← getitem m i; getitem row j.

(** [id2label[int(k)]] *)
Definition lookup_label (id2label : gmap Z string) (k : Z) : result string :=
  match id2label !! k with
  | Some name => Ok name
  | None => Raise (KeyError k)
  end.

Section per_batch.
Variables (id2label : gmap Z string) (pred_ids label_ids weights : matrix).

(** [for j in range(pred_ids.shape[1])], with the lists [preds], [labels]
    of example [i] as state. *)
Fixpoint position_loop (i : nat) (js : list nat) (preds labels : list string)
  : result (list string * list string) :=
  match js with
  | [] => Ok (preds, labels)
  | j :: rest =>
      w ← at2 weights i j;
      if decide (w = 0) then position_loop i rest preds labels
      else
        p ← at2 pred_ids i j;
        pname ← lookup_label id2label p;
        l ← at2 label_ids i j;
        lname ← lookup_label id2label l;
        position_loop i rest (preds ++ [pname]) (labels ++ [lname])
  end.

(** [for i in range(pred_ids.shape[0])], with [all_preds], [all_labels] as
    state; the pair of example [i] is appended at lines 30-31 and again at
    lines 33-34. *)
Fixpoint example_loop (is_ : list nat) (all_preds all_labels : list (list string))
  : result (list (list string) * list (list string)) :=
  match is_ with
  | [] => Ok (all_preds, all_labels)
  | i :: rest =>
      '(preds, labels) ← position_loop i (seq 0 (shape1 pred_ids)) [] [];
      let all_preds := all_preds ++ [preds] in
      let all_labels := all_labels ++ [labels] in
      let all_preds := all_preds ++ [preds] in
      let all_labels := all_labels ++ [labels] in
      example_loop rest all_preds all_labels
  end.

End per_batch.

(** [for batch in dataset] *)
Fixpoint batch_loop (id2label : gmap Z string) (dataset : list Batch)
    (all_preds all_labels : list (list string))
  : result (list (list string) * list (list string)) :=
  match dataset with
  | [] => Ok (all_preds, all_labels)
  | batch :: rest =>
      let true_labels := b_labels batch in
      let weights := b_weights batch in
      let pred_ids := predict batch in
      '(all_preds, all_labels) ←
        example_loop id2label pred_ids true_labels weights
          (seq 0 (shape0 pred_ids)) all_preds all_labels;
      batch_loop id2label rest all_preds all_labels
  end.

Definition get_seqeval_input (dataset : list Batch) (id2label : gmap Z string)
  : result (list (list string) * list (list string)) :=
  batch_loop id2label dataset [] [].

(** *** Vocabulary of the statements about the aggregator *)

(** The entries of [xs] at the positions where the loss mask is 1. *)
Definition at_mask_one {A} (mask : list Z) (xs : list A) : list A :=
  (filter (fun wx => wx.1 = 1) (zip mask xs)).*2.

(** [names] are the label names of [ids], in order. *)
Definition translated (id2label : gmap Z string) (names : list string)
    (ids : list Z) : Prop :=
  Forall2 (fun name id => id2label !! id = Some name) names ids.

(** Every entry twice, in order. *)
Definition twice {A} (xs : list A) : list A := xs ≫= (fun x => [x; x]).

(** The pair of lists produced for one example: the names of its predicted
    and of its true ids at the mask-1 positions, in position order. *)
Definition example_result (id2label : gmap Z string)
    (ex : list Z * list Z * list Z) (out : list string * list string) : Prop :=
  let '(p, l, w) := ex in
  translated id2label out.1 (at_mask_one w p) ∧
  translated id2label out.2 (at_mask_one w l) ∧
  length out.1 = length out.2.

(** One example: its predicted ids, true ids and loss mask. *)
Definition examples_of (b : Batch) : list (list Z * list Z * list Z) :=
  zip (zip (predict b) (b_labels b)) (b_weights b).

(** The batch as the dataset builder and the model deliver it: labels,
    weights and predictions have one shape, the weights are mask bits, and
    the ids at mask-1 positions are in the vocabulary. *)
Definition batch_ok (id2label : gmap Z string) (b : Batch) : Prop :=
  ∃ n,
    length (b_labels b) = length (predict b) ∧
    length (b_weights b) = length (predict b) ∧
    Forall (fun r => length r = n) (predict b) ∧
    Forall (fun r => length r = n) (b_labels b) ∧
    Forall (fun r => length r = n) (b_weights b) ∧
    Forall (Forall (fun w => w = 0 ∨ w = 1)) (b_weights b) ∧
    Forall (fun '(p, l, w) =>
              Forall (fun id => is_Some (id2label !! id)) (at_mask_one w p) ∧
              Forall (fun id => is_Some (id2label !! id)) (at_mask_one w l))
           (examples_of b).

End aggregator.

(** The label vocabulary of models/jobbert.py. *)
Definition label_list : list string := ["O"; "B-SKILL"; "I-SKILL"]%string.
Definition label2id : gmap string Z :=
  list_to_map (imap (fun i l => (l, Z.of_nat i)) label_list).
Definition id2label : gmap Z string :=
  list_to_map ((fun '(l, i) => (i, l)) <$> map_to_list label2id).

(** A model for the examples: class 1 scores highest on sub-word ids above
    1005, class 0 elsewhere. *)
Definition sample_model (input_ids attention_mask : matrix)
  : list (list (list Z)) :=
  (fun row : list Z => (fun id => [5; id - 1000; 0]) <$> row) <$> input_ids.

Definition sample_batch : Batch :=
  {| b_input_ids := [[101; 1004; 1011; 2000; 1003; 102]];
     b_attention_mask := [[1; 1; 1; 1; 1; 1]];
     b_labels := [[0; 1; 2; 0; 0; 0]];
     b_weights := [[0; 1; 1; 0; 1; 0]] |}.

End Evaluation.

(** ** utils/input_to_text.py *)

Module InputToText.

Open Scope N_scope.

(** *** Characters *)

Definition ascii_upper (c : N) : bool := (65 <=? c) && (c <=? 90).
Definition ascii_lower (c : N) : N := if ascii_upper c then c + 32 else c.
Definition ascii_digit (c : N) : bool := (48 <=? c) && (c <=? 57).

(** The code points for which [str.isspace] holds; [\s] in a str pattern
    and [str.strip()] use the same set. *)
Definition isspace (c : N) : bool :=
  ((9 <=? c) && (c <=? 13)) || ((28 <=? c) && (c <=? 32))
  || (c =? 133) || (c =? 160) || (c =? 5760)
  || ((8192 <=? c) && (c <=? 8202))
  || (c =? 8232) || (c =? 8233) || (c =? 8239) || (c =? 8287) || (c =? 12288).

(** The class [•●▪■–—]. *)
Definition is_glyph (c : N) : bool :=
  (c =? 8226) || (c =? 9679) || (c =? 9642) || (c =? 9632)
  || (c =? 8211) || (c =? 8212).

(** *** The fragment of [re] the module uses *)

(** A pattern is a sequence of items: one character of a class, or a
    greedy [+] over a class. *)
Inductive item : Type :=
  | One (cls : N → bool)
  | Many1 (cls : N → bool).

(** Number of code points the pattern matches at the start of [s], taking
    the first alternative the backtracking matcher finds (longest
    repetition first). *)
Fixpoint match_here (pat : list item) (s : str) : option nat :=
  match pat with
  | [] => Some 0%nat
  | One cls :: pat' =>
      match s with
      | c :: s' => if cls c then S <$> match_here pat' s' else None
      | [] => None
      end
  | Many1 cls :: pat' =>
      (fix greedy (s : str) : option nat :=
         match s with
         | c :: s' =>
             if cls c then
               match greedy s' with
               | Some n => Some (S n)
               | None => S <$> match_here pat' s'
               end
             else None
         | [] => None
         end) s
  end.

(** [re.sub(pat, repl, s)] for a pattern that matches no empty string:
    matches are taken left to right without overlap; [skip] counts the
    code points of the current match still to be dropped. *)
Fixpoint sub_go (pat : list item) (repl : str) (s : str) (skip : nat) : str :=
  match s with
  | [] => []
  | c :: s' =>
      match skip with
      | S k => sub_go pat repl s' k
      | O =>
          match match_here pat s with
          | Some (S n) => repl ++ sub_go pat repl s' n
          | _ => c :: sub_go pat repl s' 0
          end
      end
  end.

Definition re_sub (pat : list item) (repl : str) (s : str) : str :=
  sub_go pat repl s 0.

(** A literal piece of a pattern. *)
Definition lit (s : string) : list item :=
  (fun c => One (N.eqb c)) <$> py s.

(** [str.strip()] *)
Fixpoint lstrip (s : str) : str :=
  match s with
  | [] => []
  | c :: s' => if isspace c then lstrip s' else s
  end.

Definition rstrip (s : str) : str := reverse (lstrip (reverse s)).
Definition strip (s : str) : str := rstrip (lstrip s).

(** *** Paths: [os.path.splitext] *)

Inductive os_flavour : Type := Posix | Nt.

Definition sep (os : os_flavour) : N :=
  match os with Posix => 47 | Nt => 92 end.
Definition altsep (os : os_flavour) : option N :=
  match os with Posix => None | Nt => Some 47 end.
Definition extsep : N := 46.

Fixpoint rfind_from (i : Z) (p : str) (c : N) (found : Z) : Z :=
  match p with
  | [] => found
  | x :: rest => rfind_from (i + 1)%Z rest c (if decide (x = c) then i else found)
  end.

(** [p.rfind(c)]: the last index of [c], or -1. *)
Definition rfind (p : str) (c : N) : Z := rfind_from 0%Z p c (-1)%Z.

(** The [while filenameIndex < dotIndex] loop of [genericpath._splitext];
    [Some] is its early [return], [None] is falling out of the loop. *)
Fixpoint skip_leading_dots (fuel : nat) (p : str) (filenameIndex dotIndex : Z)
  : option (str * str) :=
  match fuel with
  | O => None
  | S fuel' =>
      if decide (filenameIndex < dotIndex)%Z then
        if decide (p !! Z.to_nat filenameIndex ≠ Some extsep) then
          Some (take (Z.to_nat dotIndex) p, drop (Z.to_nat dotIndex) p)
        else skip_leading_dots fuel' p (filenameIndex + 1)%Z dotIndex
      else None
  end.

Definition splitext (os : os_flavour) (p : str) : str * str :=
  let sepIndex := rfind p (sep os) in
  let sepIndex :=
    match altsep os with
    | Some a => Z.max sepIndex (rfind p a)
    | None => sepIndex
    end in
  let dotIndex := rfind p extsep in
  let found :=
    if decide (dotIndex > sepIndex)%Z then
      let filenameIndex := (sepIndex + 1)%Z in
      skip_leading_dots (Z.to_nat (dotIndex - filenameIndex)) p
        filenameIndex dotIndex
    else None in
  match found with
  | Some r => r
  | None => (p, [])
  end.

Section text.

(** Unicode data that is not reproduced here: the lowercase mapping of a
    code point (one code point may map to several) and the decimal digits
    that [\d] matches. The context-dependent lowercase of the final sigma
    is not modelled. *)
Variable unicode_lower : N → list N.
Variable unicode_decimal : N → bool.

(** [text.lower()] *)
Definition lower (text : str) : str := text ≫= unicode_lower.

(** r'\n+', r'\s+', r'page \d+ of \d+', r'[•●▪■–—]' *)
Definition newlines : list item := [Many1 (N.eqb 10)].
Definition whitespace : list item := [Many1 isspace].
Definition page_footer : list item :=
  lit "page " ++ [Many1 unicode_decimal] ++ lit " of " ++ [Many1 unicode_decimal].
Definition glyphs : list item := [One is_glyph].

Definition clean_cv_text (text : str) : str :=
  let text := lower text in
  let text := re_sub newlines (py (String "010"%char EmptyString)) text in
  let text := re_sub whitespace (py " ") text in
  let text := re_sub page_footer (py "") text in
  let text := re_sub glyphs (py " ") text in
  strip text.

(** The collaborators: pandoc, pdfplumber and the file system. Each returns
    the text of the file or fails with an error of its own. *)
Variable os : os_flavour.
Variable docx_to_text : str → string + str.
Variable pdf_to_text : str → string + str.
Variable read_file : str → string + str.

Definition external (r : string + str) : result str :=
  match r with
  | inl e => Raise (ExternalError e)
  | inr text => Ok text
  end.

Definition unsupported (type : str) : exn :=
  ValueError (py "Unsupported '" ++ type ++ py "' file type.").

Definition extract_text (filepath : str) : result str :=
  let type := lower (splitext os filepath).2 in
  if decide (type = py ".docx") then
    clean_cv_text <$> external (docx_to_text filepath)
  else if decide (type = py ".pdf") then
    clean_cv_text <$> external (pdf_to_text filepath)
  else if decide (type = py ".txt") then
    clean_cv_text <$> external (read_file filepath)
  else Raise (unsupported type).

End text.

(** *** Vocabulary of the statements about the module *)

Definition supported_types : list str := [py ".docx"; py ".pdf"; py ".txt"].

(** The error of the last branch of [extract_text], whatever its text. *)
Definition is_unsupported_error {A} (r : result A) : Prop :=
  ∃ type, r = Raise (unsupported type).

(** No two adjacent whitespace characters. *)
Fixpoint no_adjacent_space (s : str) : bool :=
  match s with
  | c :: (d :: _) as rest => negb (isspace c && isspace d) && no_adjacent_space rest
  | _ => true
  end.

(** No whitespace at either end. *)
Definition no_outer_space (s : str) : Prop :=
  (∀ c, head s = Some c → isspace c = false) ∧
  (∀ c, last s = Some c → isspace c = false).

Definition normalized_whitespace (s : str) : Prop :=
  no_adjacent_space s = true ∧ no_outer_space s.

(** Every code point is its own lowercase. *)
Definition entirely_lowercase (unicode_lower : N → list N) (s : str) : Prop :=
  Forall (fun c => unicode_lower c = [c]) s.

Definition no_glyphs (s : str) : Prop :=
  Forall (fun c => is_glyph c = false) s.

(** The only whitespace is the plain space. *)
Definition only_plain_spaces (s : str) : Prop :=
  Forall (fun c => isspace c = true → c = 32) s.

(** Some position of [s] starts a match of the pattern. *)
Fixpoint contains (pat : list item) (s : str) : bool :=
  match s with
  | [] => false
  | _ :: rest => bool_decide (is_Some (match_here pat s)) || contains pat rest
  end.

(** Instances for the examples: only the ASCII letters change case and
    only the ASCII digits are decimal. *)
Definition ascii_only_lower (c : N) : list N := [ascii_lower c].

Definition sample_docx (filepath : str) : string + str :=
  inr (py "Skills  " ++ [8226] ++ py "  Python" ++ [10; 10] ++ py "Page 1 of 2").
Definition sample_pdf (filepath : str) : string + str :=
  inr (py "SQL " ++ [8212] ++ py " AWS").
Definition sample_read (filepath : str) : string + str :=
  if decide (filepath = py "cv.txt") then inr (py "  Senior Python developer ")
  else inl "FileNotFoundError"%string.

(** The text-extraction entry point on the sample files. *)
Definition sample_extract_text : str → result str :=
  extract_text ascii_only_lower ascii_digit Posix
    sample_docx sample_pdf sample_read.

Definition sample_clean : str → str := clean_cv_text ascii_only_lower ascii_digit.

End InputToText.

(** ** services/skills_extraction.py, models/skillner.py, main.py *)

Module Main.

(** One entry of the pipeline's output: the dict keys the entry point
    reads, the score already as the text its formatting gives. *)
Record skill : Type := {
  word : str;
  score : str
}.

Section pipeline.

(** Handles of the loaded tokenizer and model. *)
Variables (Tokenizer Model : Type).

(** Python values that are passed as arguments here. *)
Inductive value : Type :=
  | VStr (s : str)
  | VTokenizer (t : Tokenizer)
  | VModel (m : Model)
  | VCallable (f : str → result (list skill)).

(** Binding of the arguments of a call [f(args, **kwargs)] to the
    parameters of [def f(params)], none of which has a default. *)
Fixpoint bind_positional (fname : string) (params : list string)
    (args : list value) : result (list (string * value) * list string) :=
  match args, params with
  | [], _ => Ok ([], params)
  | _ :: _, [] =>
      Raise (TypeError (fname +:+ "() takes fewer positional arguments"))
  | a :: args', p :: params' =>
      '(env, free) ← bind_positional fname params' args';
      Ok ((p, a) :: env, free)
  end.

Fixpoint bind_keywords (fname : string) (params : list string)
    (env : list (string * value)) (free : list string)
    (kwargs : list (string * value))
  : result (list (string * value) * list string) :=
  match kwargs with
  | [] => Ok (env, free)
  | (k, v) :: kwargs' =>
      if decide (k ∈ free) then
        bind_keywords fname params (env ++ [(k, v)])
          (filter (fun p => p ≠ k) free) kwargs'
      else if decide (k ∈ params) then
        Raise (TypeError (fname +:+ "() got multiple values for argument '"
                            +:+ k +:+ "'"))
      else
        Raise (TypeError (fname +:+ "() got an unexpected keyword argument '"
                            +:+ k +:+ "'"))
  end.

Definition bind_arguments (fname : string) (params : list string)
    (args : list value) (kwargs : list (string * value))
  : result (list (string * value)) :=
  '(env, free) ← bind_positional fname params args;
  '(env, free) ← bind_keywords fname params env free kwargs;
  match free with
  | [] => Ok env
  | p :: _ =>
      Raise (TypeError (fname +:+ "() missing required argument '" +:+ p +:+ "'"))
  end.

Definition lookup_arg (env : list (string * value)) (name : string)
  : result value :=
  match list_find (fun kv => kv.1 = name) env with
  | Some (_, (_, v)) => Ok v
  | None => Raise (TypeError ("unbound parameter " +:+ name))
  end.

(** [def extract_skills(input, pipeline): return pipeline(input)] *)
Definition extract_skills (args : list value) (kwargs : list (string * value))
  : result (list skill) :=
  env ← bind_arguments "extract_skills" ["input"; "pipeline"]%string args kwargs;
  input ← lookup_arg env "input";
  pipeline ← lookup_arg env "pipeline";
  match pipeline, input with
  | VCallable f, VStr text => f text
  | VCallable _, _ => Raise (TypeError "pipeline input is not text")
  | _, _ => Raise (TypeError "object is not callable")
  end.

(** [load_skillner()] fetches the two artifacts from the hub. *)
Variable load_skillner : string + (Tokenizer * Model).

(** The text-extraction entry point, with its collaborators fixed. *)
Variable extract_text : str → result str.

(** One line of the final loop. *)
Definition skill_line (i : nat) (s : skill) : str :=
  py (pretty i) ++ py ". skill: " ++ word s ++ py ", confidence: " ++ score s.

(** [run_main_pipeline(filepath, userID, userType)]: the lines written to
    standard output and how the call ends. Nothing is printed before the
    final loop, so a call that raises has printed nothing. *)
Definition run_main_pipeline (filepath : str) (userID : Z) (userType : str)
  : list str * result unit :=
  let outcome :=
    input ← extract_text filepath;
    loaded ← match load_skillner with
             | inl e => Raise (ExternalError e)
             | inr tm => Ok tm
             end;
    let skillner := loaded.2 in
    let tokenizer := loaded.1 in
    extracted_skills ←
      extract_skills [VStr input]
        [("model"%string, VModel skillner); ("tokenizer"%string, VTokenizer tokenizer)];
    let isJobSeeker := if decide (userType = py "company") then false else true in
    Ok (imap skill_line extracted_skills) in
  match outcome with
  | Ok lines => (lines, Ok ())
  | Raise e => ([], Raise e)
  end.

End pipeline.

End Main.

(** ** Further vocabulary *)

(** Number of positions that count toward the loss. *)
Definition count_ones (mask : list Z) : nat :=
  length (filter (fun m => m = 1) mask).

(** The words that have a sub-word in the sequence. *)
Definition words_present (word_ids : list (option nat)) : gset nat :=
  list_to_set (omap id word_ids).

(** The word id at the last position, None for the empty sequence. *)
Definition last_word_id (word_ids : list (option nat)) : option nat :=
  last word_ids ≫= id.

(** The entries of [xs] at the positions whose weight is not 0. *)
Definition at_nonzero {A} (weights : list Z) (xs : list A) : list A :=
  (filter (fun wx => wx.1 ≠ 0) (zip weights xs)).*2.

(** The pair of lists of one example, read off the weights as they are. *)
Definition example_result_nonzero (id2label : gmap Z string)
    (ex : list Z * list Z * list Z) (out : list string * list string) : Prop :=
  let '(p, l, w) := ex in
  Evaluation.translated id2label out.1 (at_nonzero w p) ∧
  Evaluation.translated id2label out.2 (at_nonzero w l).

(** Labels, weights and predictions of a batch have one shape. *)
Definition same_shape (pred_ids label_ids weights : list (list Z)) : Prop :=
  ∃ n,
    length label_ids = length pred_ids ∧
    length weights = length pred_ids ∧
    Forall (fun r => length r = n) pred_ids ∧
    Forall (fun r => length r = n) label_ids ∧
    Forall (fun r => length r = n) weights.

(** The errors the aggregator can end in. *)
Definition lookup_error (id2label : gmap Z string) (e : exn) : Prop :=
  e = IndexError ∨ ∃ k, e = KeyError k ∧ id2label !! k = None.

(** [c] is a path separator of the platform. *)
Definition is_sep (os : InputToText.os_flavour) (c : N) : Prop :=
  c = InputToText.sep os ∨ InputToText.altsep os = Some c.

(** The index of the last separator, as [_splitext] computes it. *)
Definition sep_index (os : InputToText.os_flavour) (p : str) : Z :=
  match InputToText.altsep os with
  | Some a => Z.max (InputToText.rfind p (InputToText.sep os)) (InputToText.rfind p a)
  | None => InputToText.rfind p (InputToText.sep os)
  end.

(** A character that can stand inside a file name or an extension: neither
    the dot nor a separator. *)
Definition plain_char (os : InputToText.os_flavour) (c : N) : Prop :=
  c ≠ InputToText.extsep ∧ ¬ is_sep os c.

(** Length of the whitespace run at the start of [s]. *)
Fixpoint space_run (s : str) : nat :=
  match s with
  | c :: rest => if InputToText.isspace c then S (space_run rest) else 0%nat
  | [] => 0%nat
  end.

(** The first character, if any, is not whitespace. *)
Definition starts_without_space (s : str) : Prop :=
  ∀ c, head s = Some c → InputToText.isspace c = false.

(** The text after the first three steps of [clean_cv_text]: lowercased,
    with every run of whitespace collapsed to one space. *)
Definition collapsed (unicode_lower : N → list N) (text : str) : str :=
  InputToText.re_sub InputToText.whitespace (py " ")
    (InputToText.re_sub InputToText.newlines
       (py (String "010"%char EmptyString))
       (InputToText.lower unicode_lower text)).

(** ** models/jobbert.py: the label vocabulary *)

Module Jobbert.

(** [{l: i for i, l in enumerate(label_list)}]: the entries are stored in
    list order, a later one replacing an earlier one with the same key. *)
Definition make_label2id (label_list : list string) : gmap string Z :=
  foldl (fun m il => <[il.2 := il.1]> m) ∅
    (imap (fun i l => (Z.of_nat i, l)) label_list).

(** [{i: l for l, i in label2id.items()}] *)
Definition make_id2label (label2id : gmap string Z) : gmap Z string :=
  foldl (fun m li => <[li.2 := li.1]> m) ∅ (map_to_list label2id).

Definition label_list : list string := ["O"; "B-SKILL"; "I-SKILL"]%string.
Definition label2id : gmap string Z := make_label2id label_list.
Definition id2label : gmap Z string := make_id2label label2id.

End Jobbert.

(** ** Further sample data *)

(** The sample batch with a weight other than 0 and 1. *)
Definition weighted_batch : Dataset.Batch :=
  {| Dataset.b_input_ids := [[101; 1004; 1011; 2000; 1003; 102]];
     Dataset.b_attention_mask := [[1; 1; 1; 1; 1; 1]];
     Dataset.b_labels := [[0; 1; 2; 0; 0; 0]];
     Dataset.b_weights := [[0; 2; 1; 0; 1; 0]] |}.

(** * Properties *)

(** ** Label Aligner *)

Section encoder_facts.
Import Encoder.

Implicit Types (tags : list Z) (word_ids : list (option nat)) (st : loop_state).

Lemma step_Ok tags st wid st' :
  step tags st wid = Ok st' →
  ∃ lab msk, st_labels st' = st_labels st ++ [lab] ∧
             st_mask st' = st_mask st ++ [msk] ∧
             prev_word_id st' = wid ∧
             emitted tags (prev_word_id st) wid lab msk.
Proof.
  unfold step, emitted. destruct wid as [w|].
  - destruct (decide (Some w ≠ prev_word_id st)) as [Hne|Heq].
    + unfold getitem. destruct (tags !! w) as [t|] eqn:Ht; simpl; [|done].
      intros [= <-]. exists t, 1. simpl. rewrite decide_False; [done|congruence].
    + intros [= <-]. exists 0, 0. simpl.
      rewrite decide_True; [done|]. by destruct (decide (Some w = prev_word_id st)).
  - intros [= <-]. by exists 0, 0.
Qed.

Lemma loop_Ok tags word_ids : ∀ st st',
  loop tags st word_ids = Ok st' →
  ∃ L M, st_labels st' = st_labels st ++ L ∧ st_mask st' = st_mask st ++ M ∧
    length L = length word_ids ∧ length M = length word_ids ∧
    ∀ i wid, word_ids !! i = Some wid →
      ∃ lab msk, L !! i = Some lab ∧ M !! i = Some msk ∧
        emitted tags (prev_from (prev_word_id st) word_ids i) wid lab msk.
Proof.
  induction word_ids as [|wid0 rest IH]; intros st st' Hloop; simpl in Hloop.
  - injection Hloop as <-. exists [], []. rewrite !app_nil_r.
    repeat split; try done.
  - destruct (step tags st wid0) as [st1|e] eqn:Hstep; simpl in Hloop; [|done].
    apply step_Ok in Hstep as (lab & msk & HL1 & HM1 & Hp1 & Hem).
    apply IH in Hloop as (L & M & HL & HM & HlenL & HlenM & Hpos).
    exists (lab :: L), (msk :: M).
    rewrite HL, HM, HL1, HM1, <- !app_assoc. simpl.
    repeat split; try done; try congruence.
    intros [|i] wid Hi; simpl in *.
    + injection Hi as <-. by exists lab, msk.
    + destruct (Hpos i wid Hi) as (lab' & msk' & ? & ? & Hem').
      exists lab', msk'. repeat split; try done.
      destruct i as [|i]; simpl in *; [by rewrite Hp1 in Hem'|done].
Qed.

(** The loop fails only through [tags[word_id]]. *)
Lemma loop_total tags word_ids : ∀ st,
  (∀ i w, word_ids !! i = Some (Some w) →
     prev_from (prev_word_id st) word_ids i ≠ Some w → (w < length tags)%nat) →
  ∃ st', loop tags st word_ids = Ok st'.
Proof.
  induction word_ids as [|wid0 rest IH]; intros st Hin; simpl; [by eexists|].
  assert (∃ st1, step tags st wid0 = Ok st1 ∧ prev_word_id st1 = wid0)
    as (st1 & Hst1 & Hp1).
  { unfold step. destruct wid0 as [w|]; [|by eexists].
    destruct (decide (Some w ≠ prev_word_id st)); [|by eexists].
    unfold getitem.
    destruct (lookup_lt_is_Some_2 tags w) as [t Ht].
    { apply (Hin 0%nat w); [done|]. simpl. congruence. }
    rewrite Ht. by eexists. }
  rewrite Hst1. simpl. apply IH. intros i w Hi Hprev.
  apply (Hin (S i) w); [done|]. simpl.
  destruct i as [|i]; simpl in *; [by rewrite Hp1 in Hprev|done].
Qed.

Lemma loop_raises tags word_ids : ∀ st e,
  loop tags st word_ids = Raise e →
  e = IndexError ∧
  ∃ i w, word_ids !! i = Some (Some w) ∧
    prev_from (prev_word_id st) word_ids i ≠ Some w ∧ (length tags ≤ w)%nat.
Proof.
  induction word_ids as [|wid0 rest IH]; intros st e Hloop; simpl in Hloop; [done|].
  destruct (step tags st wid0) as [st1|e1] eqn:Hstep; simpl in Hloop.
  - pose proof (step_Ok _ _ _ _ Hstep) as (_ & _ & _ & _ & Hp1 & _).
    apply IH in Hloop as (-> & i & w & Hi & Hprev & Hle). split; [done|].
    exists (S i), w. repeat split; try done.
    destruct i as [|i]; simpl in *; [by rewrite Hp1 in Hprev|done].
  - injection Hloop as <-. unfold step in Hstep.
    destruct wid0 as [w|]; [|done].
    destruct (decide (Some w ≠ prev_word_id st)) as [Hne|]; [|done].
    unfold getitem in Hstep. destruct (tags !! w) eqn:Ht; simpl in Hstep; [done|].
    injection Hstep as <-. split; [done|].
    exists 0%nat, w. simpl. repeat split; [congruence|].
    by apply lookup_ge_None_1.
Qed.

End encoder_facts.

Section aligner_claims.
Import Encoder.

Variable tokenizer : list str → BatchEncoding.

Lemma first_occurrence `{EqDecision A} (l : list A) (x : A) :
  x ∈ l → ∃ i, l !! i = Some x ∧ ∀ j, (j < i)%nat → l !! j ≠ Some x.
Proof.
  induction l as [|a l IH].
  - intros H. by apply elem_of_nil in H.
  - intros H. destruct (decide (a = x)) as [->|Hne].
    + exists 0%nat. split; [done|]. lia.
    + apply elem_of_cons in H as [->|H]; [done|].
      destruct (IH H) as (i & Hi & Hmin). exists (S i). split; [done|].
      intros [|j] Hj; simpl; [congruence|]. apply Hmin. lia.
Qed.

Lemma prev_at_Some word_ids i w :
  prev_at word_ids i = Some w →
  ∃ j, i = S j ∧ word_ids !! j = Some (Some w).
Proof.
  destruct i as [|j]; [done|]. unfold prev_at. simpl.
  destruct (word_ids !! j) as [o|] eqn:Hj; simpl; [|done].
  intros ->. by exists j.
Qed.

Lemma aligner_Ok tokens tags enc :
  tokenize_and_align_labels tokenizer tokens tags = Ok enc →
  let word_ids := tok_word_ids (tokenizer tokens) in
  length (labels enc) = length word_ids ∧
  length (label_mask enc) = length word_ids ∧
  ∀ i wid, word_ids !! i = Some wid →
    ∃ lab msk, labels enc !! i = Some lab ∧ label_mask enc !! i = Some msk ∧
      emitted tags (prev_at word_ids i) wid lab msk.
Proof.
  unfold tokenize_and_align_labels.
  destruct (loop tags init_state _) as [st|e] eqn:Hloop; simpl; [|done].
  intros [= <-]. simpl.
  apply loop_Ok in Hloop as (L & M & HL & HM & ? & ? & Hpos).
  simpl in HL, HM. by subst.
Qed.

(** C1. Under the tokenizer's contract (word ids point into the token list
    and the sub-words of a word are adjacent) and for tag lists as long as
    the token list, the aligner returns an encoding in which every position
    carries, in order: (0, 0) at a special token; the word's tag and mask 1
    where the word id differs from the one before (None before position 0);
    (0, 0) at a continuation sub-word. Hence every word present in the
    sub-word sequence has exactly one mask-1 position, its first sub-word,
    and that position carries the word's tag. *)
Theorem label_aligner_first_subword tokens tags :
  let word_ids := tok_word_ids (tokenizer tokens) in
  length tokens = length tags →
  word_ids_in_range word_ids (length tokens) →
  word_ids_contiguous word_ids →
  ∃ enc, tokenize_and_align_labels tokenizer tokens tags = Ok enc ∧
    length (labels enc) = length word_ids ∧
    length (label_mask enc) = length word_ids ∧
    (∀ i wid, word_ids !! i = Some wid →
       ∃ lab msk, labels enc !! i = Some lab ∧ label_mask enc !! i = Some msk ∧
         match wid with
         | None => lab = 0 ∧ msk = 0
         | Some w =>
             if decide (prev_at word_ids i = Some w) then lab = 0 ∧ msk = 0
             else tags !! w = Some lab ∧ msk = 1
         end) ∧
    (∀ w, Some w ∈ word_ids →
       ∃ i t, word_ids !! i = Some (Some w) ∧
         (∀ j, (j < i)%nat → word_ids !! j ≠ Some (Some w)) ∧
         tags !! w = Some t ∧
         labels enc !! i = Some t ∧ label_mask enc !! i = Some 1 ∧
         (∀ j, word_ids !! j = Some (Some w) →
               label_mask enc !! j = Some 1 → j = i)).
Proof.
  intros word_ids Hlen Hrange Hcontig.
  destruct (loop_total tags word_ids init_state) as [st Hst].
  { intros i w Hi _. rewrite <- Hlen. by eapply Hrange. }
  assert (∃ enc, tokenize_and_align_labels tokenizer tokens tags = Ok enc)
    as [enc Henc].
  { unfold tokenize_and_align_labels. fold word_ids. rewrite Hst. by eexists. }
  exists enc. split; [done|].
  destruct (aligner_Ok _ _ _ Henc) as (HlenL & HlenM & Hpos).
  fold word_ids in HlenL, HlenM, Hpos.
  split; [done|]. split; [done|]. split; [exact Hpos|].
  intros w Hw.
  destruct (first_occurrence word_ids (Some w) Hw) as (i & Hi & Hmin).
  destruct (Hpos i _ Hi) as (lab & msk & Hlab & Hmsk & Hem). simpl in Hem.
  destruct (decide (prev_at word_ids i = Some w)) as [Hprev|Hprev].
  { apply prev_at_Some in Hprev as (j & -> & Hj). destruct (Hmin j); [lia|done]. }
  destruct Hem as [Ht ->].
  exists i, lab. repeat split; try done.
  intros j Hj Hmask.
  destruct (Hpos j _ Hj) as (lab' & msk' & _ & Hmsk' & Hem'). simpl in Hem'.
  rewrite Hmask in Hmsk'. injection Hmsk' as <-.
  destruct (decide (prev_at word_ids j = Some w)) as [?|Hprevj]; [by destruct Hem'|].
  destruct (decide (j = i)) as [|Hne]; [done|]. exfalso.
  assert (i < j)%nat as Hlt.
  { destruct (decide (j < i)%nat) as [Hji|]; [|lia]. by destruct (Hmin j Hji). }
  destruct j as [|j']; [lia|]. apply Hprevj. unfold prev_at. simpl.
  destruct (decide (j' = i)) as [->|]; [by rewrite Hi|].
  rewrite (Hcontig i j' (S j') w); [done|lia|lia|done|done].
Qed.

(** C2. In every encoding the aligner returns, a position whose loss-mask
    bit is 0 has label id 0. *)
Theorem label_mask_zero_label_zero tokens tags enc i :
  tokenize_and_align_labels tokenizer tokens tags = Ok enc →
  label_mask enc !! i = Some 0 →
  labels enc !! i = Some 0.
Proof.
  intros Henc Hmask.
  destruct (aligner_Ok _ _ _ Henc) as (HlenL & HlenM & Hpos).
  destruct (lookup_lt_is_Some_2 (tok_word_ids (tokenizer tokens)) i) as [wid Hwid].
  { rewrite <- HlenM. by eapply lookup_lt_Some. }
  destruct (Hpos i wid Hwid) as (lab & msk & Hlab & Hmsk & Hem).
  rewrite Hmask in Hmsk. injection Hmsk as <-. rewrite Hlab. f_equal.
  unfold emitted in Hem. destruct wid as [w|]; [|by destruct Hem].
  destruct (decide _); by destruct Hem.
Qed.

(** C7 as the code has it. The aligner never compares the two lengths. It
    returns an encoding exactly when every first sub-word position has a
    word id below [len(tags)], and raises IndexError (from [tags[word_id]])
    exactly when some first sub-word position has a word id at or beyond
    [len(tags)]; no other error is raised. So with in-range word ids a tag
    list at least as long as the token list is always accepted. *)
Theorem label_aligner_failure_condition tokens tags :
  let word_ids := tok_word_ids (tokenizer tokens) in
  let r := tokenize_and_align_labels tokenizer tokens tags in
  ((∃ enc, r = Ok enc) ↔
     ∀ i w, first_subword word_ids i w → (w < length tags)%nat) ∧
  (∀ e, r = Raise e ↔
     e = IndexError ∧
     ∃ i w, first_subword word_ids i w ∧ (length tags ≤ w)%nat) ∧
  (word_ids_in_range word_ids (length tokens) →
   (length tokens ≤ length tags)%nat → ∃ enc, r = Ok enc).
Proof.
  intros word_ids r.
  assert (Hfail : ∀ e, r = Raise e →
     e = IndexError ∧
     ∃ i w, first_subword word_ids i w ∧ (length tags ≤ w)%nat).
  { intros e. unfold r, tokenize_and_align_labels. fold word_ids.
    destruct (loop tags init_state word_ids) as [st|e'] eqn:Hloop; simpl; [done|].
    intros [= <-]. apply loop_raises in Hloop as (-> & i & w & ? & ? & ?).
    split; [done|]. by exists i, w. }
  assert (Hok : (∀ i w, first_subword word_ids i w → (w < length tags)%nat) →
     ∃ enc, r = Ok enc).
  { intros Hall. destruct (loop_total tags word_ids init_state) as [st Hst].
    { intros i w Hi Hp. by apply (Hall i w). }
    unfold r, tokenize_and_align_labels. fold word_ids. rewrite Hst. by eexists. }
  split; [|split].
  - split; [|done]. intros [enc Henc] i w Hfirst.
    destruct (decide (w < length tags)%nat) as [|Hge]; [done|]. exfalso.
    destruct r as [enc'|e] eqn:Hr; [|done].
    clear Hfail Hok. subst r.
    destruct (aligner_Ok _ _ _ Hr) as (_ & _ & Hpos).
    destruct Hfirst as [Hi Hp].
    destruct (Hpos i _ Hi) as (lab & msk & _ & _ & Hem). simpl in Hem.
    rewrite decide_False in Hem by done. destruct Hem as [Ht _].
    apply lookup_lt_Some in Ht. lia.
  - intros e. split; [apply Hfail|].
    intros (-> & i & w & Hfirst & Hle).
    destruct r as [enc|e] eqn:Hr.
    + exfalso. subst r. destruct (aligner_Ok _ _ _ Hr) as (_ & _ & Hpos).
      destruct Hfirst as [Hi Hp].
      destruct (Hpos i _ Hi) as (lab & msk & _ & _ & Hem). simpl in Hem.
      rewrite decide_False in Hem by done. destruct Hem as [Ht _].
      apply lookup_lt_Some in Ht. lia.
    + by destruct (Hfail e eq_refl) as [-> _].
  - intros Hrange Hle. apply Hok. intros i w [Hi _].
    specialize (Hrange i w Hi). lia.
Qed.

End aligner_claims.

(** *** The aligner on a concrete example *)

Example sample_word_ids :
  Encoder.tok_word_ids (Encoder.sample_tokenizer 256 Encoder.sample_tokens)
  = [None; Some 0; Some 1; Some 1; Some 2; None]%nat.
Proof. reflexivity. Qed.

Example sample_alignment :
  Encoder.tokenize_and_align_labels (Encoder.sample_tokenizer 256)
    Encoder.sample_tokens Encoder.sample_tags
  = Ok {| Encoder.input_ids := [101; 1004; 1011; 2000; 1003; 102];
          Encoder.attention_mask := [1; 1; 1; 1; 1; 1];
          Encoder.labels := [0; 1; 2; 0; 0; 0];
          Encoder.label_mask := [0; 1; 1; 0; 1; 0] |}.
Proof. reflexivity. Qed.

(** Case analysis on the index of a lookup in an explicit list. *)
Ltac index_cases i H :=
  destruct i as [|i]; simpl in H;
  [try discriminate H | first [discriminate H | index_cases i H]].

Lemma label_aligner_first_subword_witness :
  let word_ids :=
    Encoder.tok_word_ids (Encoder.sample_tokenizer 256 Encoder.sample_tokens) in
  length Encoder.sample_tokens = length Encoder.sample_tags ∧
  Encoder.word_ids_in_range word_ids (length Encoder.sample_tokens) ∧
  Encoder.word_ids_contiguous word_ids ∧
  ∃ enc,
    Encoder.tokenize_and_align_labels (Encoder.sample_tokenizer 256)
      Encoder.sample_tokens Encoder.sample_tags = Ok enc ∧
    length (Encoder.label_mask enc) = length word_ids.
Proof.
  intros word_ids.
  assert (Hlen : length Encoder.sample_tokens = length Encoder.sample_tags) by reflexivity.
  assert (Hrange : Encoder.word_ids_in_range word_ids (length Encoder.sample_tokens)).
  { intros i w Hi. unfold word_ids in Hi. rewrite sample_word_ids in Hi.
    index_cases i Hi; injection Hi as <-; simpl; lia. }
  assert (Hcontig : Encoder.word_ids_contiguous word_ids).
  { intros i j k w Hij Hjk Hi Hk. unfold word_ids in *.
    rewrite sample_word_ids in *.
    index_cases i Hi; index_cases k Hk; solve [lia | congruence]. }
  split; [exact Hlen|]. split; [exact Hrange|]. split; [exact Hcontig|].
  destruct (label_aligner_first_subword (Encoder.sample_tokenizer 256)
              Encoder.sample_tokens Encoder.sample_tags Hlen Hrange Hcontig)
    as (enc & Henc & _ & HlenM & _).
  exists enc. split; [exact Henc | exact HlenM].
Defined.

Lemma label_mask_zero_label_zero_witness :
  Encoder.labels
    {| Encoder.input_ids := [101; 1004; 1011; 2000; 1003; 102];
       Encoder.attention_mask := [1; 1; 1; 1; 1; 1];
       Encoder.labels := [0; 1; 2; 0; 0; 0];
       Encoder.label_mask := [0; 1; 1; 0; 1; 0] |} !! 3%nat = Some 0.
Proof.
  apply (label_mask_zero_label_zero (Encoder.sample_tokenizer 256)
           Encoder.sample_tokens Encoder.sample_tags).
  - reflexivity.
  - reflexivity.
Defined.

(** The claim C7 as written fails: a tag list longer than the token list is
    accepted, and so is a shorter one when truncation removes the words
    whose tags are missing. *)
Lemma label_aligner_accepts_mismatch :
  (length [py "sql"] ≠ length [0; 1] ∧
   ∃ enc, Encoder.tokenize_and_align_labels (Encoder.sample_tokenizer 256)
            [py "sql"] [0; 1] = Ok enc) ∧
  (length [py "sql"; py "data"] ≠ length [1] ∧
   ∃ enc, Encoder.tokenize_and_align_labels (Encoder.sample_tokenizer 3)
            [py "sql"; py "data"] [1] = Ok enc).
Proof.
  split; (split; [simpl; lia | eexists; reflexivity]).
Qed.

Lemma label_aligner_failure_condition_witness :
  ∃ enc, Encoder.tokenize_and_align_labels (Encoder.sample_tokenizer 256)
           [py "sql"] [0; 1] = Ok enc.
Proof.
  destruct (label_aligner_failure_condition (Encoder.sample_tokenizer 256)
              [py "sql"] [0; 1]) as (_ & _ & Hlonger).
  apply Hlonger.
  - intros i w Hi. change (Encoder.tok_word_ids _) with [None; Some 0%nat; None] in Hi.
    index_cases i Hi. injection Hi as <-. simpl. lia.
  - simpl. lia.
Defined.

(** ** Evaluation Aggregator *)

Section aggregator_facts.
Import Dataset Evaluation.

Context {score : Type} (score_ltb : score → score → bool).
Variable model : matrix → matrix → list (list (list score)).
Variable id2label : gmap Z string.

Lemma drop_cons_inv {A} (l l' : list A) (x : A) (k : nat) :
  drop k l = x :: l' → l !! k = Some x ∧ drop (S k) l = l'.
Proof.
  intros H. split.
  - rewrite <- (Nat.add_0_r k), <- lookup_drop, H. done.
  - change (S k) with (1 + k)%nat. rewrite Nat.add_comm, <- drop_drop, H. done.
Qed.

Lemma at2_Ok (m : matrix) (i j : nat) (row : list Z) (x : Z) :
  m !! i = Some row → row !! j = Some x → at2 m i j = Ok x.
Proof. intros Hi Hj. unfold at2, getitem. rewrite Hi. simpl. by rewrite Hj. Qed.

Section one_example.
Variables (pred_ids label_ids weights : matrix) (i : nat).
Variables (pr lr wr : list Z).
Hypothesis Hpr : pred_ids !! i = Some pr.
Hypothesis Hlr : label_ids !! i = Some lr.
Hypothesis Hwr : weights !! i = Some wr.

Lemma position_loop_suffix : ∀ (ws ps ls : list Z) (k : nat) preds labels,
  drop k wr = ws → drop k pr = ps → drop k lr = ls →
  length ps = length ws → length ls = length ws →
  Forall (fun w => w = 0 ∨ w = 1) ws →
  Forall (fun id => is_Some (id2label !! id)) (at_mask_one ws ps) →
  Forall (fun id => is_Some (id2label !! id)) (at_mask_one ws ls) →
  ∃ P L,
    position_loop id2label pred_ids label_ids weights i
      (seq k (length ws)) preds labels = Ok (preds ++ P, labels ++ L) ∧
    translated id2label P (at_mask_one ws ps) ∧
    translated id2label L (at_mask_one ws ls) ∧
    length P = length L.
Proof.
  induction ws as [|w ws IH]; intros ps ls k preds labels Hdw Hdp Hdl Hlp Hll Hbits Hvp Hvl.
  - exists [], []. simpl. rewrite !app_nil_r.
    destruct ps; [|done]. destruct ls; [|done]. repeat split; constructor.
  - destruct ps as [|p ps]; [done|]. destruct ls as [|l ls]; [done|].
    apply drop_cons_inv in Hdw as [Hw Hdw].
    apply drop_cons_inv in Hdp as [Hp Hdp].
    apply drop_cons_inv in Hdl as [Hl Hdl].
    simpl in Hlp, Hll. apply Forall_cons in Hbits as [Hw01 Hbits].
    simpl. rewrite (at2_Ok _ _ _ _ _ Hwr Hw). simpl.
    unfold at_mask_one in *. simpl in Hvp, Hvl. rewrite !filter_cons in Hvp, Hvl.
    simpl. rewrite !filter_cons. simpl in *.
    destruct (decide (w = 0)) as [->|Hw0].
    + rewrite decide_False in Hvp, Hvl |- * by done.
      rewrite decide_False by done.
      apply (IH ps ls (S k)); try done; lia.
    + assert (w = 1) as -> by (by destruct Hw01).
      rewrite decide_True in Hvp, Hvl by done. rewrite !decide_True by done.
      simpl in Hvp, Hvl.
      apply Forall_cons in Hvp as [[pname Hpname] Hvp].
      apply Forall_cons in Hvl as [[lname Hlname] Hvl].
      rewrite (at2_Ok _ _ _ _ _ Hpr Hp). simpl.
      unfold lookup_label. rewrite Hpname. simpl.
      rewrite (at2_Ok _ _ _ _ _ Hlr Hl). simpl. rewrite Hlname. simpl.
      destruct (IH ps ls (S k) (preds ++ [pname]) (labels ++ [lname]))
        as (P & L & Hloop & HP & HL & Hlen); try done; try lia.
      exists (pname :: P), (lname :: L). rewrite Hloop, <- !app_assoc. simpl.
      repeat split; try done.
      * by constructor.
      * by constructor.
      * by rewrite Hlen.
Qed.

End one_example.

Lemma twice_app {A} (xs ys : list A) : twice (xs ++ ys) = twice xs ++ twice ys.
Proof. unfold twice. apply bind_app. Qed.

Lemma length_twice {A} (xs : list A) : length (twice xs) = (2 * length xs)%nat.
Proof. induction xs as [|x xs IH]; simpl; [done|]. rewrite IH. lia. Qed.

Section one_batch.
Variables (pred_ids label_ids weights : matrix) (n : nat).
Hypothesis Hshape : pred_ids ≠ [] → shape1 pred_ids = n.

Lemma example_loop_suffix : ∀ (prs lrs wrs : matrix) (k : nat) all_preds all_labels,
  drop k pred_ids = prs → drop k label_ids = lrs → drop k weights = wrs →
  length lrs = length prs → length wrs = length prs →
  Forall (fun r => length r = n) prs →
  Forall (fun r => length r = n) lrs →
  Forall (fun r => length r = n) wrs →
  Forall (Forall (fun w => w = 0 ∨ w = 1)) wrs →
  Forall (fun '(p, l, w) =>
            Forall (fun id => is_Some (id2label !! id)) (at_mask_one w p) ∧
            Forall (fun id => is_Some (id2label !! id)) (at_mask_one w l))
         (zip (zip prs lrs) wrs) →
  ∃ per : list (list string * list string),
    example_loop id2label pred_ids label_ids weights
      (seq k (length prs)) all_preds all_labels
    = Ok (all_preds ++ twice per.*1, all_labels ++ twice per.*2) ∧
    Forall2 (example_result id2label) (zip (zip prs lrs) wrs) per.
Proof.
  induction prs as [|pr prs IH];
    intros lrs wrs k all_preds all_labels Hdp Hdl Hdw Hll Hlw Hnp Hnl Hnw Hbits Hvoc.
  - exists []. simpl. rewrite !app_nil_r. split; [done|]. constructor.
  - destruct lrs as [|lr lrs]; [done|]. destruct wrs as [|wr wrs]; [done|].
    apply drop_cons_inv in Hdp as [Hp Hdp].
    apply drop_cons_inv in Hdl as [Hl Hdl].
    apply drop_cons_inv in Hdw as [Hw Hdw].
    apply Forall_cons in Hnp as [Hnp1 Hnp].
    apply Forall_cons in Hnl as [Hnl1 Hnl].
    apply Forall_cons in Hnw as [Hnw1 Hnw].
    apply Forall_cons in Hbits as [Hbits1 Hbits].
    simpl in Hvoc. apply Forall_cons in Hvoc as [[Hvp Hvl] Hvoc].
    simpl in Hll, Hlw.
    assert (shape1 pred_ids = length wr) as Hs.
    { rewrite Hnw1. apply Hshape. intros ->. done. }
    destruct (position_loop_suffix pred_ids label_ids weights k pr lr wr Hp Hl Hw
                wr pr lr 0%nat [] []) as (P & L & Hpos & HP & HL & HPL);
      try done; try congruence.
    simpl. rewrite Hs, Hpos. simpl.
    destruct (IH lrs wrs (S k) ((all_preds ++ [P]) ++ [P]) ((all_labels ++ [L]) ++ [L]))
      as (per & Hloop & Hper); try done; try lia.
    exists ((P, L) :: per). rewrite Hloop. simpl.
    rewrite <- !app_assoc. simpl. split; [done|].
    constructor; [|done]. simpl. done.
Qed.

End one_batch.

Lemma batch_loop_ok (dataset : list Batch) : ∀ all_preds all_labels,
  Forall (batch_ok score_ltb model id2label) dataset →
  ∃ per : list (list string * list string),
    batch_loop score_ltb model id2label dataset all_preds all_labels
    = Ok (all_preds ++ twice per.*1, all_labels ++ twice per.*2) ∧
    Forall2 (example_result id2label)
      (dataset ≫= examples_of score_ltb model) per.
Proof.
  induction dataset as [|b dataset IH]; intros all_preds all_labels Hok.
  - exists []. simpl. rewrite !app_nil_r. split; [done|]. constructor.
  - apply Forall_cons in Hok as [(n & Hll & Hlw & Hnp & Hnl & Hnw & Hbits & Hvoc) Hok].
    destruct (example_loop_suffix (predict score_ltb model b) (b_labels b)
                (b_weights b) n) with
      (prs := predict score_ltb model b) (lrs := b_labels b) (wrs := b_weights b)
      (k := 0%nat) (all_preds := all_preds) (all_labels := all_labels)
      as (per1 & Hloop1 & Hper1); try done.
    { destruct (predict score_ltb model b) as [|r rs]; [done|].
      intros _. simpl. by apply Forall_cons in Hnp as [? _]. }
    simpl. unfold shape0. rewrite Hloop1. simpl.
    destruct (IH (all_preds ++ twice per1.*1) (all_labels ++ twice per1.*2) Hok)
      as (per2 & Hloop2 & Hper2).
    exists (per1 ++ per2). rewrite Hloop2, !fmap_app, !twice_app, !app_assoc.
    split; [done|]. by apply Forall2_app.
Qed.

(** C4. On batches as the builder and the model deliver them, the
    aggregator returns, and the lists it produces for an example hold the
    label names of the predicted ids, respectively of the true ids, at
    exactly the positions whose loss mask is 1, in position order, so a
    mask-0 position is in neither list and the two lists have one length.
    (The output collections hold every such pair twice, examples in input
    order.) *)
Theorem seqeval_lists_are_mask_one_positions (dataset : list Batch) :
  Forall (batch_ok score_ltb model id2label) dataset →
  ∃ per : list (list string * list string),
    get_seqeval_input score_ltb model dataset id2label
    = Ok (twice per.*1, twice per.*2) ∧
    Forall2 (example_result id2label)
      (dataset ≫= examples_of score_ltb model) per.
Proof.
  intros Hok. unfold get_seqeval_input.
  destruct (batch_loop_ok dataset [] [] Hok) as (per & Hloop & Hper).
  exists per. by rewrite Hloop.
Qed.

(** Whatever the batches hold, a returned output has two entries for every
    example the model scored. *)
Lemma example_loop_length (pred_ids label_ids weights : matrix) :
  ∀ (is_ : list nat) all_preds all_labels ps ls,
  example_loop id2label pred_ids label_ids weights is_ all_preds all_labels
  = Ok (ps, ls) →
  length ps = (length all_preds + 2 * length is_)%nat ∧
  length ls = (length all_labels + 2 * length is_)%nat.
Proof.
  induction is_ as [|i is_ IH]; intros all_preds all_labels ps ls; simpl.
  - intros [= <- <-]. lia.
  - destruct (position_loop _ _ _ _ _ _ _ _) as [[preds labels]|e]; simpl; [|done].
    intros H. apply IH in H as [-> ->]. rewrite !length_app. simpl. lia.
Qed.

Lemma seqeval_output_length (dataset : list Batch) :
  ∀ all_preds all_labels ps ls,
  batch_loop score_ltb model id2label dataset all_preds all_labels = Ok (ps, ls) →
  let examples := sum_list ((fun b => shape0 (predict score_ltb model b)) <$> dataset) in
  length ps = (length all_preds + 2 * examples)%nat ∧
  length ls = (length all_labels + 2 * examples)%nat.
Proof.
  induction dataset as [|b dataset IH]; intros all_preds all_labels ps ls; simpl.
  - intros [= <- <-]. lia.
  - destruct (example_loop _ _ _ _ _ _ _) as [[ap al]|e] eqn:Hex; simpl; [|done].
    apply example_loop_length in Hex as [Hap Hal]. rewrite length_seq in Hap, Hal.
    intros H. apply IH in H as [Hps Hls]. unfold shape0 in *. simpl in *.
    unfold fmap in Hps, Hls. lia.
Qed.

(** C3 on the code. Whenever the aggregator returns, each output collection
    has two entries for every example of the dataset: the pair of an example
    is appended at lines 30-31 and once more at lines 33-34, where the
    specification asks for one entry per example. *)
Theorem seqeval_pair_appended_twice (dataset : list Batch) ps ls :
  get_seqeval_input score_ltb model dataset id2label = Ok (ps, ls) →
  let examples :=
    sum_list ((fun b => shape0 (predict score_ltb model b)) <$> dataset) in
  length ps = (2 * examples)%nat ∧ length ls = (2 * examples)%nat.
Proof.
  unfold get_seqeval_input. intros H.
  apply seqeval_output_length in H as [Hps Hls]. simpl in Hps, Hls. simpl.
  split; [exact Hps | exact Hls].
Qed.

End aggregator_facts.

Example sample_seqeval_output :
  Evaluation.get_seqeval_input Z.ltb Evaluation.sample_model
    [Evaluation.sample_batch] Evaluation.id2label
  = Ok ([["O"; "B-SKILL"; "O"]; ["O"; "B-SKILL"; "O"]]%string,
        [["B-SKILL"; "I-SKILL"; "O"]; ["B-SKILL"; "I-SKILL"; "O"]]%string).
Proof. vm_compute. reflexivity. Qed.

Lemma seqeval_pair_appended_twice_witness :
  ∃ ps ls,
    Evaluation.get_seqeval_input Z.ltb Evaluation.sample_model
      [Evaluation.sample_batch] Evaluation.id2label = Ok (ps, ls) ∧
    length [Evaluation.sample_batch] = 1%nat ∧
    length ps = 2%nat ∧ length ls = 2%nat.
Proof.
  eexists _, _. split; [vm_compute; reflexivity|]. split; [reflexivity|].
  apply (seqeval_pair_appended_twice Z.ltb Evaluation.sample_model
           Evaluation.id2label [Evaluation.sample_batch]).
  vm_compute. reflexivity.
Defined.

Lemma seqeval_lists_are_mask_one_positions_witness :
  Forall (Evaluation.batch_ok Z.ltb Evaluation.sample_model Evaluation.id2label)
    [Evaluation.sample_batch] ∧
  ∃ per : list (list string * list string),
    Evaluation.get_seqeval_input Z.ltb Evaluation.sample_model
      [Evaluation.sample_batch] Evaluation.id2label
    = Ok (Evaluation.twice per.*1, Evaluation.twice per.*2) ∧
    Forall2 (Evaluation.example_result Evaluation.id2label)
      ([Evaluation.sample_batch] ≫= Evaluation.examples_of Z.ltb Evaluation.sample_model)
      per.
Proof.
  assert (Hok : Forall (Evaluation.batch_ok Z.ltb Evaluation.sample_model
                          Evaluation.id2label) [Evaluation.sample_batch]).
  { constructor; [|constructor]. exists 6%nat.
    repeat split; try reflexivity;
      repeat (constructor; try reflexivity; try (left; reflexivity);
              try (right; reflexivity); try (eexists; vm_compute; reflexivity)). }
  split; [exact Hok|].
  exact (seqeval_lists_are_mask_one_positions Z.ltb Evaluation.sample_model
           Evaluation.id2label [Evaluation.sample_batch] Hok).
Defined.

(** ** Batch Dataset Builder *)

Section dataset_facts.
Import Dataset.



(** Encodings of different lengths never reach the batching step. *)
Lemma make_dataset_ragged (encodings : list Encoder.Encoding) (B : Z) :
  rectangular (Encoder.input_ids <$> encodings) = false →
  make_dataset encodings B = Raise TensorValueError.
Proof.
  intros H. unfold make_dataset, from_tensor_slices, convert_to_tensor.
  by rewrite H.
Qed.

Lemma rectangular_lengths (rows : matrix) (i j : nat) (r1 r2 : list Z) :
  rectangular rows = true → rows !! i = Some r1 → rows !! j = Some r2 →
  length r1 = length r2.
Proof.
  destruct rows as [|r0 rest]; [done|]. simpl. intros Hall.
  assert (∀ k r, (r0 :: rest) !! k = Some r → length r = length r0) as Hhead.
  { intros [|k] r Hk; simpl in Hk; [by injection Hk as <-|].
    rewrite forallb_forall in Hall. apply Nat.eqb_eq, Hall.
    apply list_elem_of_In. by eapply list_elem_of_lookup_2. }
  intros Hi Hj. by rewrite (Hhead i r1 Hi), (Hhead j r2 Hj).
Qed.

(** C5 on the code. As soon as two encodings differ in length, the nested
    list of their sub-word ids is not rectangular: [from_tensor_slices]
    raises, and no batch is produced, where the specification asks for
    padded batches. *)
Theorem make_dataset_rejects_unequal_lengths
    (encodings : list Encoder.Encoding) (B : Z) (i j : nat)
    (e1 e2 : Encoder.Encoding) :
  encodings !! i = Some e1 → encodings !! j = Some e2 →
  length (Encoder.input_ids e1) ≠ length (Encoder.input_ids e2) →
  make_dataset encodings B = Raise TensorValueError.
Proof.
  intros Hi Hj Hne. apply make_dataset_ragged.
  destruct (rectangular (Encoder.input_ids <$> encodings)) eqn:Hrect; [|done].
  destruct Hne.
  apply (rectangular_lengths (Encoder.input_ids <$> encodings) i j); [done| |].
  - by rewrite list_lookup_fmap, Hi.
  - by rewrite list_lookup_fmap, Hj.
Qed.

End dataset_facts.

Lemma make_dataset_rejects_unequal_lengths_witness :
  Dataset.make_dataset
    [ {| Encoder.input_ids := [101; 1003; 102];
         Encoder.attention_mask := [1; 1; 1];
         Encoder.labels := [0; 1; 0];
         Encoder.label_mask := [0; 1; 0] |};
      {| Encoder.input_ids := [101; 1004; 1011; 2000; 1003; 102];
         Encoder.attention_mask := [1; 1; 1; 1; 1; 1];
         Encoder.labels := [0; 1; 2; 0; 0; 0];
         Encoder.label_mask := [0; 1; 1; 0; 1; 0] |} ]
    Dataset.default_batch_size
  = Raise TensorValueError.
Proof.
  eapply (make_dataset_rejects_unequal_lengths _ _ 0%nat 1%nat).
  - reflexivity.
  - reflexivity.
  - simpl. lia.
Defined.

(** ** Command-line entry point *)

Section main_facts.
Import Main.

Variables (Tokenizer Model : Type).
Variable load_skillner : string + (Tokenizer * Model).
Variable extract_text : str → result str.

(** The keyword call of main.py never binds: [extract_skills] has no
    parameter named [model]. *)
Lemma extract_skills_keyword_call (input : str) (m : Model) (t : Tokenizer) :
  extract_skills Tokenizer Model [VStr _ _ input]
    [("model"%string, VModel _ _ m); ("tokenizer"%string, VTokenizer _ _ t)]
  = Raise (TypeError "extract_skills() got an unexpected keyword argument 'model'").
Proof. reflexivity. Qed.

(** The positional call [extract_skills(input, pipeline)] runs the pipeline. *)
Lemma extract_skills_positional_call (input : str) f :
  extract_skills Tokenizer Model [VStr _ _ input; VCallable _ _ f] [] = f input.
Proof. reflexivity. Qed.

(** No call of the entry point prints a skill: every call ends in an
    exception with standard output still empty. *)
Lemma run_main_pipeline_prints_nothing (filepath : str) (userID : Z) (userType : str) :
  ∃ e, run_main_pipeline Tokenizer Model load_skillner extract_text
         filepath userID userType = ([], Raise e).
Proof.
  unfold run_main_pipeline.
  destruct (extract_text filepath) as [input|e]; simpl; [|by eexists].
  destruct load_skillner as [e|[t m]]; simpl; by eexists.
Qed.

(** C6 on the code. With a supported, readable file and the model loaded,
    the entry point stops at the call of [extract_skills] with a TypeError
    and prints nothing, where the specification asks for the list of
    skills. *)
Theorem run_main_pipeline_type_error (filepath : str) (userID : Z)
    (userType input : str) (loaded : Tokenizer * Model) :
  extract_text filepath = Ok input →
  load_skillner = inr loaded →
  run_main_pipeline Tokenizer Model load_skillner extract_text
    filepath userID userType
  = ([], Raise (TypeError
                  "extract_skills() got an unexpected keyword argument 'model'")).
Proof.
  intros Htext Hload. unfold run_main_pipeline. rewrite Htext, Hload.
  cbn [mbind result_bind]. by rewrite extract_skills_keyword_call.
Qed.

End main_facts.

Lemma run_main_pipeline_type_error_witness :
  InputToText.sample_extract_text (py "cv.txt") = Ok (py "senior python developer") ∧
  Main.run_main_pipeline unit unit (inr (tt, tt)) InputToText.sample_extract_text
    (py "cv.txt") 0 (py "admin")
  = ([], Raise (TypeError
                  "extract_skills() got an unexpected keyword argument 'model'")).
Proof.
  assert (Htext : InputToText.sample_extract_text (py "cv.txt")
                  = Ok (py "senior python developer"))
    by (vm_compute; reflexivity).
  split; [exact Htext|].
  exact (run_main_pipeline_type_error unit unit (inr (tt, tt))
           InputToText.sample_extract_text (py "cv.txt") 0 (py "admin")
           (py "senior python developer") (tt, tt) Htext eq_refl).
Defined.

(** ** Text extraction *)

Section regex_facts.
Import InputToText.

(** A substitution keeps a code point only where the pattern does not
    match, and adds only code points of the replacement. *)
Lemma sub_go_Forall (P Q : N → Prop) (pat : list item) (repl : str) :
  Forall P repl →
  (∀ c s, Q c → (∀ n, match_here pat (c :: s) ≠ Some (S n)) → P c) →
  ∀ s skip, Forall Q s → Forall P (sub_go pat repl s skip).
Proof.
  intros Hrepl Hkeep. induction s as [|c s IH]; intros skip HQ; simpl.
  - constructor.
  - apply Forall_cons in HQ as [Hc HQ]. destruct skip as [|k]; [|by apply IH].
    destruct (match_here pat (c :: s)) as [[|n]|] eqn:Hm.
    + constructor; [|by apply IH]. apply (Hkeep c s Hc). intros n. by rewrite Hm.
    + apply Forall_app. split; [done|by apply IH].
    + constructor; [|by apply IH]. apply (Hkeep c s Hc). intros n. by rewrite Hm.
Qed.

Lemma re_sub_Forall (P : N → Prop) (pat : list item) (repl s : str) :
  Forall P repl → Forall P s → Forall P (re_sub pat repl s).
Proof.
  intros Hrepl Hs. apply (sub_go_Forall P P); [done| |done]. by intros c s' Hc _.
Qed.

Lemma many1_matches (cls : N → bool) (c : N) (s : str) :
  cls c = true → ∃ n, match_here [Many1 cls] (c :: s) = Some (S n).
Proof.
  intros Hc. simpl. rewrite Hc.
  match goal with |- context [match ?g with Some _ => _ | None => _ end] =>
    destruct g end; by eexists.
Qed.

Lemma one_matches (cls : N → bool) (c : N) (s : str) :
  cls c = true → match_here [One cls] (c :: s) = Some 1%nat.
Proof. intros Hc. simpl. by rewrite Hc. Qed.

Lemma lstrip_Forall (P : N → Prop) (s : str) : Forall P s → Forall P (lstrip s).
Proof.
  induction s as [|c s IH]; intros H; simpl; [done|].
  destruct (isspace c); [|done]. apply IH. by apply Forall_cons in H as [_ ?].
Qed.

Lemma strip_Forall (P : N → Prop) (s : str) : Forall P s → Forall P (strip s).
Proof.
  intros H. unfold strip, rstrip.
  apply Forall_reverse, lstrip_Forall, Forall_reverse. by apply lstrip_Forall.
Qed.

Lemma lstrip_head (s : str) (c : N) : head (lstrip s) = Some c → isspace c = false.
Proof.
  induction s as [|d s IH]; simpl; [done|].
  destruct (isspace d) eqn:Hd; [done|]. simpl. by intros [= <-].
Qed.

Lemma lstrip_last (s : str) : lstrip s = [] ∨ last (lstrip s) = last s.
Proof.
  induction s as [|d s IH]; simpl; [by left|].
  destruct (isspace d); [|by right].
  destruct s as [|e s]; [by left|].
  destruct IH as [?|IH]; [by left|right]. by rewrite IH, last_cons_cons.
Qed.

Lemma strip_no_outer_space (s : str) : no_outer_space (strip s).
Proof.
  unfold strip, rstrip. split; intros c Hc.
  - rewrite head_reverse in Hc.
    destruct (lstrip_last (reverse (lstrip s))) as [Hnil|Hlast].
    + by rewrite Hnil in Hc.
    + rewrite Hlast, last_reverse in Hc. by apply lstrip_head in Hc.
  - rewrite last_reverse in Hc. by apply lstrip_head in Hc.
Qed.

End regex_facts.

Section text_claims.
Import InputToText.

Variable unicode_lower : N → list N.
Variable unicode_decimal : N → bool.
Variable os : os_flavour.
Variables docx_to_text pdf_to_text read_file : str → string + str.

(** On ASCII the lowercase mapping changes the letters A-Z only. *)
Hypothesis lower_ascii : ∀ c, (c < 128)%N → unicode_lower c = [ascii_lower c].
(** The code points of a lowercase mapping are themselves lowercase. *)
Hypothesis lower_stable : ∀ c d, d ∈ unicode_lower c → unicode_lower d = [d].

Local Abbreviation clean := (clean_cv_text unicode_lower unicode_decimal).
Local Abbreviation extract :=
  (extract_text unicode_lower unicode_decimal os docx_to_text pdf_to_text read_file).

Lemma lower_of_ascii (s : str) :
  Forall (fun c => (c < 128)%N) s → lower unicode_lower s = ascii_lower <$> s.
Proof.
  induction 1 as [|c s Hc _ IH]; [done|].
  unfold lower in *. by rewrite bind_cons, lower_ascii, IH.
Qed.

Lemma ascii_lower_small (c : N) : (ascii_lower c < 128)%N → (c < 128)%N.
Proof.
  unfold ascii_lower, ascii_upper.
  destruct (65 <=? c)%N eqn:H1, (c <=? 90)%N eqn:H2; simpl; lia.
Qed.

(** A letter casing of an ASCII string lowercases to that string. *)
Lemma lower_of_casing (ext t : str) :
  Forall (fun c => (c < 128)%N) t → ascii_lower <$> ext = t →
  lower unicode_lower ext = t.
Proof.
  intros Ht Hext. rewrite lower_of_ascii; [done|]. subst t.
  apply Forall_fmap in Ht. eapply Forall_impl; [exact Ht|].
  intros c. apply ascii_lower_small.
Qed.

Lemma supported_types_ascii (t : str) :
  t ∈ supported_types → Forall (fun c => (c < 128)%N) t ∧ ascii_lower <$> t = t.
Proof.
  unfold supported_types. rewrite !elem_of_cons, elem_of_nil.
  intros [->|[->|[->|[]]]]; (split; [|reflexivity]);
    repeat constructor.
Qed.

Lemma cleaned_not_unsupported (r : string + str) :
  ¬ is_unsupported_error (clean <$> external r).
Proof. intros [type H]. by destruct r. Qed.

(** The dispatch of [extract_text] on the lowercased extension. *)
Lemma extract_text_dispatch (filepath : str) :
  let type := lower unicode_lower (splitext os filepath).2 in
  (type = py ".docx" → extract filepath = clean <$> external (docx_to_text filepath)) ∧
  (type = py ".pdf" → extract filepath = clean <$> external (pdf_to_text filepath)) ∧
  (type = py ".txt" → extract filepath = clean <$> external (read_file filepath)) ∧
  (type ∉ supported_types → extract filepath = Raise (unsupported type)).
Proof.
  intros type. unfold extract_text. fold type.
  repeat split.
  - intros ->. by rewrite decide_True.
  - intros ->. rewrite decide_False by done. by rewrite decide_True.
  - intros ->. rewrite !decide_False by done. by rewrite decide_True.
  - unfold supported_types. rewrite !not_elem_of_cons. intros (? & ? & ? & _).
    by rewrite !decide_False.
Qed.

Lemma extract_text_unsupported_iff (filepath : str) :
  is_unsupported_error (extract filepath) ↔
  lower unicode_lower (splitext os filepath).2 ∉ supported_types.
Proof.
  destruct (extract_text_dispatch filepath) as (Hdocx & Hpdf & Htxt & Hother).
  split.
  - intros Herr Hin. unfold supported_types in Hin.
    rewrite !elem_of_cons, elem_of_nil in Hin.
    destruct Hin as [H|[H|[H|[]]]];
      [rewrite (Hdocx H) in Herr|rewrite (Hpdf H) in Herr|rewrite (Htxt H) in Herr];
      by apply cleaned_not_unsupported in Herr.
  - intros Hout. rewrite (Hother Hout). by eexists.
Qed.

(** C8 as the code has it. The extension is lowercased before it is
    compared: a path whose lowercased extension is none of .docx, .pdf,
    .txt ends in the unsupported-file-type error, whatever the
    collaborators would do, and a path whose extension is one of the three,
    in this or any other casing of the letters, never ends in that error. *)
Theorem extract_text_unsupported_after_lowercasing (filepath : str) :
  let ext := (splitext os filepath).2 in
  (lower unicode_lower ext ∉ supported_types →
     extract filepath = Raise (unsupported (lower unicode_lower ext))) ∧
  (lower unicode_lower ext ∈ supported_types →
     ¬ is_unsupported_error (extract filepath)) ∧
  (ext ∈ supported_types → ¬ is_unsupported_error (extract filepath)).
Proof.
  intros ext. split; [|split].
  - apply extract_text_dispatch.
  - intros Hin Herr. by apply extract_text_unsupported_iff in Herr.
  - intros Hin Herr. apply extract_text_unsupported_iff in Herr. apply Herr.
    fold ext. destruct (supported_types_ascii ext Hin) as [Hascii Hfix].
    by rewrite (lower_of_casing ext ext Hascii Hfix).
Qed.

(** C10. The dispatch looks at the lowercased extension only: an extension
    that is .docx, .pdf or .txt in any casing of its letters selects the
    branch of its lowercase form, and the unsupported-file-type error is
    raised exactly when the lowercased extension is none of the three. *)
Theorem extract_text_case_insensitive (filepath : str) :
  let ext := (splitext os filepath).2 in
  let type := lower unicode_lower ext in
  (∀ t, t ∈ supported_types → ascii_lower <$> ext = t → type = t) ∧
  (type = py ".docx" → extract filepath = clean <$> external (docx_to_text filepath)) ∧
  (type = py ".pdf" → extract filepath = clean <$> external (pdf_to_text filepath)) ∧
  (type = py ".txt" → extract filepath = clean <$> external (read_file filepath)) ∧
  (is_unsupported_error (extract filepath) ↔ type ∉ supported_types).
Proof.
  intros ext type.
  destruct (extract_text_dispatch filepath) as (Hdocx & Hpdf & Htxt & _).
  split; [|split; [done|split; [done|split; [done|]]]].
  - intros t Ht Hcase. apply lower_of_casing; [|done].
    by apply supported_types_ascii.
  - apply extract_text_unsupported_iff.
Qed.

(** C9 as the code has it. The cleaned text is entirely lowercase, has no
    whitespace at either end and no whitespace character other than the
    plain space, and holds no bullet or long-dash glyph. *)
Theorem clean_cv_text_output (text : str) :
  entirely_lowercase unicode_lower (clean text) ∧
  no_outer_space (clean text) ∧
  only_plain_spaces (clean text) ∧
  no_glyphs (clean text).
Proof.
  assert (Hnl : unicode_lower 10 = [10%N]) by (by rewrite lower_ascii).
  assert (Hsp : unicode_lower 32 = [32%N]) by (by rewrite lower_ascii).
  unfold clean_cv_text. repeat split.
  - apply strip_Forall.
    repeat (apply re_sub_Forall; [by repeat constructor|]).
    unfold lower. apply Forall_bind, Forall_forall. intros c _.
    apply Forall_forall. intros d Hd. by apply (lower_stable c).
  - by apply strip_no_outer_space.
  - by apply strip_no_outer_space.
  - apply strip_Forall.
    do 2 (apply re_sub_Forall; [by repeat constructor|]).
    apply (sub_go_Forall _ (fun _ => True)).
    + by repeat constructor.
    + intros c s _ Hno Hc. destruct (many1_matches isspace c s Hc) as [n Hn].
      by destruct (Hno n).
    + apply Forall_true. done.
  - apply strip_Forall.
    apply (sub_go_Forall _ (fun _ => True)).
    + by repeat constructor.
    + intros c s _ Hno. destruct (is_glyph c) eqn:Hc; [|done].
      destruct (Hno 0%nat). by apply one_matches.
    + apply Forall_true. done.
Qed.

End text_claims.

(** *** The module on concrete inputs *)

Lemma ascii_only_lower_ascii (c : N) :
  (c < 128)%N → InputToText.ascii_only_lower c = [InputToText.ascii_lower c].
Proof. reflexivity. Qed.

Lemma ascii_only_lower_stable (c d : N) :
  d ∈ InputToText.ascii_only_lower c → InputToText.ascii_only_lower d = [d].
Proof.
  unfold InputToText.ascii_only_lower. intros Hd%list_elem_of_singleton. subst d.
  f_equal. unfold InputToText.ascii_lower, InputToText.ascii_upper.
  destruct (65 <=? c)%N eqn:H1, (c <=? 90)%N eqn:H2; simpl;
    rewrite ?H1, ?H2; simpl; try reflexivity.
  destruct (65 <=? c + 32)%N eqn:H3, (c + 32 <=? 90)%N eqn:H4; simpl;
    try reflexivity.
  apply N.leb_le in H1, H2, H4. lia.
Qed.

Example clean_cv_text_sample :
  InputToText.sample_clean
    (py "  Hello   World" ++ [10; 10; 9]%N ++ py "Page 1 of 2 ")
  = py "hello world".
Proof. vm_compute. reflexivity. Qed.

Example splitext_samples :
  InputToText.splitext InputToText.Posix (py "dir.d/cv.PDF") = (py "dir.d/cv", py ".PDF") ∧
  InputToText.splitext InputToText.Posix (py ".bashrc") = (py ".bashrc", []) ∧
  InputToText.splitext InputToText.Nt (py "a.b\c") = (py "a.b\c", []) ∧
  InputToText.splitext InputToText.Posix (py "a.b\c") = (py "a", py ".b\c").
Proof. repeat split; vm_compute; reflexivity. Qed.

(** The claim C8 as written fails: .PDF is none of .docx, .pdf, .txt, yet
    the path is accepted and its text returned. *)
Lemma extract_text_accepts_uppercase_extension :
  (InputToText.splitext InputToText.Posix (py "cv.PDF")).2 = py ".PDF" ∧
  (py ".PDF" ∉ InputToText.supported_types) ∧
  InputToText.sample_extract_text (py "cv.PDF") = Ok (py "sql   aws") ∧
  ¬ InputToText.is_unsupported_error (InputToText.sample_extract_text (py "cv.PDF")).
Proof.
  split; [vm_compute; reflexivity|]. split.
  - unfold InputToText.supported_types. rewrite !not_elem_of_cons.
    repeat split; try discriminate. apply not_elem_of_nil.
  - split; [vm_compute; reflexivity|]. intros [type H]. vm_compute in H. discriminate H.
Qed.

Lemma extract_text_unsupported_after_lowercasing_witness :
  InputToText.sample_extract_text (py "cv.Exe")
  = Raise (InputToText.unsupported (py ".exe")) ∧
  ¬ InputToText.is_unsupported_error (InputToText.sample_extract_text (py "cv.docx")).
Proof.
  split.
  - destruct (extract_text_unsupported_after_lowercasing
                InputToText.ascii_only_lower InputToText.ascii_digit InputToText.Posix
                InputToText.sample_docx InputToText.sample_pdf InputToText.sample_read
                ascii_only_lower_ascii (py "cv.Exe")) as (Hout & _ & _).
    apply Hout. vm_compute. intros H. apply list_elem_of_In in H. simpl in H.
    destruct H as [H|[H|[H|[]]]]; discriminate H.
  - destruct (extract_text_unsupported_after_lowercasing
                InputToText.ascii_only_lower InputToText.ascii_digit InputToText.Posix
                InputToText.sample_docx InputToText.sample_pdf InputToText.sample_read
                ascii_only_lower_ascii (py "cv.docx")) as (_ & _ & Hin).
    apply Hin. vm_compute. apply list_elem_of_In. simpl. left. reflexivity.
Defined.

Lemma extract_text_case_insensitive_witness :
  InputToText.sample_extract_text (py "cv.Pdf")
  = InputToText.sample_clean <$> InputToText.external (InputToText.sample_pdf (py "cv.Pdf")).
Proof.
  destruct (extract_text_case_insensitive
              InputToText.ascii_only_lower InputToText.ascii_digit InputToText.Posix
              InputToText.sample_docx InputToText.sample_pdf InputToText.sample_read
              ascii_only_lower_ascii (py "cv.Pdf")) as (Hcase & _ & Hpdf & _).
  apply Hpdf. apply (Hcase (py ".pdf")).
  - apply list_elem_of_In. simpl. right. left. reflexivity.
  - vm_compute. reflexivity.
Defined.

(** The claim C9 as written fails: the glyph replacement and the footer
    removal come after the whitespace is collapsed, so runs of spaces
    remain, and the replacement of a glyph by a space can complete a page
    footer. *)
Lemma clean_cv_text_not_normalized :
  InputToText.sample_clean (py "a " ++ [8226%N] ++ py " b") = py "a   b" ∧
  ¬ InputToText.normalized_whitespace
      (InputToText.sample_clean (py "a " ++ [8226%N] ++ py " b")) ∧
  InputToText.sample_clean (py "x page 1 of 2 y") = py "x  y" ∧
  InputToText.sample_clean (py "Page 1" ++ [8226%N] ++ py "of 2") = py "page 1 of 2" ∧
  InputToText.contains (InputToText.page_footer InputToText.ascii_digit)
    (InputToText.sample_clean (py "Page 1" ++ [8226%N] ++ py "of 2")) = true.
Proof.
  split; [vm_compute; reflexivity|]. split.
  - intros [H _]. vm_compute in H. discriminate H.
  - repeat split; vm_compute; reflexivity.
Qed.

Lemma clean_cv_text_output_witness :
  let out := InputToText.sample_clean (py "a " ++ [8226%N] ++ py " B") in
  InputToText.entirely_lowercase InputToText.ascii_only_lower out ∧
  InputToText.no_outer_space out ∧
  InputToText.only_plain_spaces out ∧
  InputToText.no_glyphs out.
Proof.
  exact (clean_cv_text_output InputToText.ascii_only_lower InputToText.ascii_digit
           ascii_only_lower_ascii ascii_only_lower_stable
           (py "a " ++ [8226%N] ++ py " B")).
Defined.

(** * Further properties *)

(** ** Label Aligner *)

Section aligner_more.
Import Encoder.

Variable tokenizer : list str → BatchEncoding.

Lemma aligner_Ok_fields tokens tags enc :
  tokenize_and_align_labels tokenizer tokens tags = Ok enc →
  ∃ st, loop tags init_state (tok_word_ids (tokenizer tokens)) = Ok st ∧
    input_ids enc = tok_input_ids (tokenizer tokens) ∧
    attention_mask enc = tok_attention_mask (tokenizer tokens) ∧
    labels enc = st_labels st ∧ label_mask enc = st_mask st.
Proof.
  unfold tokenize_and_align_labels.
  destruct (loop tags init_state _) as [st|e] eqn:Hloop; simpl; [|done].
  intros [= <-]. by exists st.
Qed.

(** The sub-word ids and the attention mask are handed through untouched,
    and the two lists the aligner adds have one entry per sub-word. *)
Theorem aligner_keeps_tokenizer_output tokens tags enc :
  tokenize_and_align_labels tokenizer tokens tags = Ok enc →
  input_ids enc = tok_input_ids (tokenizer tokens) ∧
  attention_mask enc = tok_attention_mask (tokenizer tokens) ∧
  length (labels enc) = length (tok_word_ids (tokenizer tokens)) ∧
  length (label_mask enc) = length (tok_word_ids (tokenizer tokens)).
Proof.
  intros Henc.
  destruct (aligner_Ok_fields _ _ _ Henc) as (st & _ & Hids & Hatt & _ & _).
  destruct (aligner_Ok tokenizer _ _ _ Henc) as (HlenL & HlenM & _).
  done.
Qed.

(** Every entry of the loss mask is 0 or 1. *)
Theorem aligner_mask_is_bits tokens tags enc :
  tokenize_and_align_labels tokenizer tokens tags = Ok enc →
  Forall (fun m => m = 0 ∨ m = 1) (label_mask enc).
Proof.
  intros Henc.
  destruct (aligner_Ok tokenizer _ _ _ Henc) as (_ & HlenM & Hpos).
  apply Forall_lookup. intros i m Hm.
  destruct (lookup_lt_is_Some_2 (tok_word_ids (tokenizer tokens)) i) as [wid Hwid].
  { rewrite <- HlenM. by eapply lookup_lt_Some. }
  destruct (Hpos i wid Hwid) as (lab & msk & _ & Hmsk & Hem).
  rewrite Hm in Hmsk. injection Hmsk as <-.
  unfold emitted in Hem. destruct wid as [w|]; [|left; by destruct Hem].
  destruct (decide _); [left|right]; by destruct Hem.
Qed.

Lemma loop_app tags (l1 l2 : list (option nat)) : ∀ st,
  loop tags st (l1 ++ l2) = loop tags st l1 ≫= fun st' => loop tags st' l2.
Proof.
  induction l1 as [|x l1 IH]; intros st; simpl; [done|].
  destruct (step tags st x) as [st1|e]; simpl; [apply IH|done].
Qed.

Lemma contiguous_app_l (l1 l2 : list (option nat)) :
  word_ids_contiguous (l1 ++ l2) → word_ids_contiguous l1.
Proof.
  intros H i j k w Hij Hjk Hi Hk.
  assert (k < length l1)%nat by by eapply lookup_lt_Some.
  specialize (H i j k w Hij Hjk).
  rewrite !lookup_app_l in H by lia. by apply H.
Qed.

Lemma elem_of_words_present (l : list (option nat)) (w : nat) :
  w ∈ words_present l ↔ Some w ∈ l.
Proof.
  unfold words_present. rewrite elem_of_list_to_set, list_elem_of_omap.
  split.
  - intros ([w'|] & Hin & Heq); simpl in Heq; [|done]. by injection Heq as ->.
  - intros Hin. by exists (Some w).
Qed.

(** Under adjacency, a word id that differs from the one just before it has
    not occurred at all. *)
Lemma new_run_is_new_word (l : list (option nat)) (w : nat) :
  word_ids_contiguous (l ++ [Some w]) → last_word_id l ≠ Some w →
  Some w ∉ l.
Proof.
  intros Hcontig Hlast Hin.
  apply list_elem_of_lookup in Hin as [i Hi].
  assert (i < length l)%nat as Hlt by by eapply lookup_lt_Some.
  destruct (decide (S i = length l)) as [Hend|Hmid].
  - apply Hlast. unfold last_word_id. rewrite last_lookup.
    replace (pred (length l)) with i by lia. by rewrite Hi.
  - apply Hlast. unfold last_word_id. rewrite last_lookup.
    rewrite <- (lookup_app_l l [Some w]) by lia.
    rewrite (Hcontig i (pred (length l)) (length l) w); [done|lia|lia| |].
    + by rewrite lookup_app_l.
    + by rewrite list_lookup_middle.
Qed.

Lemma loop_count tags (word_ids : list (option nat)) : ∀ st,
  word_ids_contiguous word_ids →
  loop tags init_state word_ids = Ok st →
  prev_word_id st = last_word_id word_ids ∧
  count_ones (st_mask st) = size (words_present word_ids).
Proof.
  induction word_ids as [|x l IH] using rev_ind; intros st Hcontig Hloop.
  - injection Hloop as <-. by split.
  - rewrite loop_app in Hloop.
    destruct (loop tags init_state l) as [st1|e] eqn:Hl; simpl in Hloop; [|done].
    destruct (IH st1 (contiguous_app_l _ _ Hcontig) eq_refl) as [Hprev Hcount].
    destruct (step tags st1 x) as [st2|e] eqn:Hstep; simpl in Hloop; [|done].
    injection Hloop as <-.
    apply step_Ok in Hstep as (lab & msk & _ & HM & Hp & Hem).
    split.
    { rewrite Hp. unfold last_word_id. by rewrite last_snoc. }
    rewrite HM. unfold count_ones in *. rewrite filter_app, length_app, Hcount.
    unfold words_present. rewrite omap_app, list_to_set_app_L.
    fold (words_present l). unfold emitted in Hem. destruct x as [w|]; simpl.
    + rewrite Hprev in Hem.
      destruct (decide (last_word_id l = Some w)) as [Hsame|Hnew].
      * destruct Hem as [_ ->]. rewrite filter_cons_False by done. simpl.
        rewrite union_empty_r_L, (union_comm_L _ {[w]}), subseteq_union_1_L; [lia|].
        apply singleton_subseteq_l.
        apply elem_of_words_present. unfold last_word_id in Hsame.
        destruct (last l) as [o|] eqn:Hlast; simpl in Hsame; [|done]. subst o.
        rewrite last_lookup in Hlast. by eapply list_elem_of_lookup_2.
      * destruct Hem as [_ ->]. rewrite filter_cons_True by done. simpl.
        rewrite union_empty_r_L, size_union, size_singleton; [lia|].
        pose proof (new_run_is_new_word l w Hcontig Hnew) as Hnotin.
        rewrite <- elem_of_words_present in Hnotin.
        by apply disjoint_singleton_r.
    + destruct Hem as [_ ->]. rewrite filter_cons_False by done. simpl.
      rewrite union_empty_r_L. lia.
Qed.

(** With the sub-words of a word adjacent, the number of mask-1 positions
    is the number of distinct words that have a sub-word in the sequence. *)
Theorem aligner_counts_each_word_once tokens tags enc :
  word_ids_contiguous (tok_word_ids (tokenizer tokens)) →
  tokenize_and_align_labels tokenizer tokens tags = Ok enc →
  count_ones (label_mask enc)
  = size (words_present (tok_word_ids (tokenizer tokens))).
Proof.
  intros Hcontig Henc.
  destruct (aligner_Ok_fields _ _ _ Henc) as (st & Hloop & _ & _ & _ & ->).
  by destruct (loop_count _ _ _ Hcontig Hloop).
Qed.

Lemma loop_tags_agree tags tags' (word_ids : list (option nat)) : ∀ st,
  (∀ w, Some w ∈ word_ids → tags !! w = tags' !! w) →
  loop tags st word_ids = loop tags' st word_ids.
Proof.
  induction word_ids as [|x l IH]; intros st Hagree; simpl; [done|].
  assert (step tags st x = step tags' st x) as ->.
  { unfold step, getitem. destruct x as [w|]; [|done].
    rewrite (Hagree w); [done|]. apply elem_of_cons. by left. }
  destruct (step tags' st x) as [st1|e]; simpl; [|done].
  apply IH. intros w Hw. apply Hagree. apply elem_of_cons. by right.
Qed.

(** Only the tags of words that have a sub-word in the sequence are read:
    two tag lists that agree on those words give the same outcome, the
    same encoding or the same error. The tags of words cut off by the
    truncation, and tags beyond the last word, have no effect. *)
Theorem aligner_ignores_absent_words tokens tags tags' :
  (∀ w, Some w ∈ tok_word_ids (tokenizer tokens) → tags !! w = tags' !! w) →
  tokenize_and_align_labels tokenizer tokens tags
  = tokenize_and_align_labels tokenizer tokens tags'.
Proof.
  intros Hagree. unfold tokenize_and_align_labels.
  by rewrite (loop_tags_agree tags tags' _ init_state Hagree).
Qed.

End aligner_more.

(** ** Evaluation Aggregator *)

Section aggregator_more.
Import Dataset Evaluation.

Context {score : Type} (score_ltb : score → score → bool).
Variable model : matrix → matrix → list (list (list score)).
Variable id2label : gmap Z string.

Lemma at2_cases (m : matrix) (i j : nat) :
  (∃ x, at2 m i j = Ok x) ∨ at2 m i j = Raise IndexError.
Proof.
  unfold at2, getitem. destruct (m !! i) as [row|]; simpl; [|by right].
  destruct (row !! j); [left; by eexists|by right].
Qed.

Lemma lookup_label_cases (k : Z) :
  (∃ name, lookup_label id2label k = Ok name ∧ id2label !! k = Some name) ∨
  (lookup_label id2label k = Raise (KeyError k) ∧ id2label !! k = None).
Proof.
  unfold lookup_label. destruct (id2label !! k); [left; by eexists|by right].
Qed.

Section one_batch_more.
Variables (pred_ids label_ids weights : matrix).

Lemma position_loop_outcome (i : nat) (js : list nat) : ∀ preds labels,
  length preds = length labels →
  match position_loop id2label pred_ids label_ids weights i js preds labels with
  | Ok (preds', labels') => length preds' = length labels'
  | Raise e => lookup_error id2label e
  end.
Proof.
  induction js as [|j js IH]; intros preds labels Hlen; simpl; [done|].
  destruct (at2_cases weights i j) as [[w ->]| ->]; simpl; [|by left].
  destruct (decide (w = 0)); [by apply IH|].
  destruct (at2_cases pred_ids i j) as [[p ->]| ->]; simpl; [|by left].
  destruct (lookup_label_cases p) as [(pname & -> & _)|[-> Hp]]; simpl;
    [|right; by exists p].
  destruct (at2_cases label_ids i j) as [[l ->]| ->]; simpl; [|by left].
  destruct (lookup_label_cases l) as [(lname & -> & _)|[-> Hl]]; simpl;
    [|right; by exists l].
  apply IH. rewrite !length_app. simpl. lia.
Qed.

Lemma example_loop_outcome (is_ : list nat) : ∀ all_preds all_labels,
  Forall2 (fun p l => length p = length l) all_preds all_labels →
  match example_loop id2label pred_ids label_ids weights is_ all_preds all_labels with
  | Ok (ps, ls) => Forall2 (fun p l => length p = length l) ps ls
  | Raise e => lookup_error id2label e
  end.
Proof.
  induction is_ as [|i is_ IH]; intros all_preds all_labels Hall; simpl; [done|].
  pose proof (position_loop_outcome i (seq 0 (shape1 pred_ids)) [] [] eq_refl) as Hpos.
  destruct (position_loop _ _ _ _ _ _ _ _) as [[preds labels]|e]; simpl; [|done].
  apply IH. repeat (apply Forall2_app; [|by constructor]). done.
Qed.

End one_batch_more.

Lemma batch_loop_outcome (dataset : list Batch) : ∀ all_preds all_labels,
  Forall2 (fun p l => length p = length l) all_preds all_labels →
  match batch_loop score_ltb model id2label dataset all_preds all_labels with
  | Ok (ps, ls) => Forall2 (fun p l => length p = length l) ps ls
  | Raise e => lookup_error id2label e
  end.
Proof.
  induction dataset as [|b dataset IH]; intros all_preds all_labels Hall; simpl; [done|].
  pose proof (example_loop_outcome (predict score_ltb model b) (b_labels b)
                (b_weights b) (seq 0 (shape0 (predict score_ltb model b)))
                all_preds all_labels Hall) as Hex.
  destruct (example_loop _ _ _ _ _ _ _) as [[ap al]|e]; simpl; [|done].
  by apply IH.
Qed.

(** Whenever the aggregator returns, the two collections are parallel: they
    have one length, and the predicted and the true list of every entry
    have one length. *)
Theorem seqeval_outputs_are_parallel (dataset : list Batch) ps ls :
  get_seqeval_input score_ltb model dataset id2label = Ok (ps, ls) →
  Forall2 (fun p l => length p = length l) ps ls.
Proof.
  intros H. unfold get_seqeval_input in H.
  pose proof (batch_loop_outcome dataset [] [] (List.Forall2_nil _)) as Hout.
  by rewrite H in Hout.
Qed.


End aggregator_more.

Section aggregator_weights.
Import Dataset Evaluation.

Context {score : Type} (score_ltb : score → score → bool).
Variable model : matrix → matrix → list (list (list score)).
Variable id2label : gmap Z string.

Section one_example_weights.
Variables (pred_ids label_ids weights : matrix) (i : nat).
Variables (pr lr wr : list Z).
Hypothesis Hpr : pred_ids !! i = Some pr.
Hypothesis Hlr : label_ids !! i = Some lr.
Hypothesis Hwr : weights !! i = Some wr.

Lemma position_loop_nonzero : ∀ (ws ps ls : list Z) (k : nat) preds labels out,
  drop k wr = ws → drop k pr = ps → drop k lr = ls →
  length ps = length ws → length ls = length ws →
  position_loop id2label pred_ids label_ids weights i
    (seq k (length ws)) preds labels = Ok out →
  ∃ P L, out = (preds ++ P, labels ++ L) ∧
    translated id2label P (at_nonzero ws ps) ∧
    translated id2label L (at_nonzero ws ls).
Proof.
  induction ws as [|w ws IH]; intros ps ls k preds labels out Hdw Hdp Hdl Hlp Hll.
  - simpl. intros [= <-]. exists [], []. rewrite !app_nil_r.
    destruct ps; [|done]. destruct ls; [|done]. repeat split; constructor.
  - destruct ps as [|p ps]; [done|]. destruct ls as [|l ls]; [done|].
    apply drop_cons_inv in Hdw as [Hw Hdw].
    apply drop_cons_inv in Hdp as [Hp Hdp].
    apply drop_cons_inv in Hdl as [Hl Hdl].
    simpl in Hlp, Hll. simpl. rewrite (at2_Ok _ _ _ _ _ Hwr Hw). simpl.
    unfold at_nonzero. simpl. rewrite !filter_cons. simpl.
    destruct (decide (w = 0)) as [->|Hw0].
    + rewrite !decide_False by (intros H; by apply H).
      apply (IH ps ls (S k)); try done; lia.
    + rewrite !decide_True by done.
      rewrite (at2_Ok _ _ _ _ _ Hpr Hp). simpl.
      destruct (lookup_label_cases id2label p) as [(pname & -> & Hpn)|[-> _]];
        simpl; [|done].
      rewrite (at2_Ok _ _ _ _ _ Hlr Hl). simpl.
      destruct (lookup_label_cases id2label l) as [(lname & -> & Hln)|[-> _]];
        simpl; [|done].
      intros Hloop.
      destruct (IH ps ls (S k) _ _ _ Hdw Hdp Hdl ltac:(lia) ltac:(lia) Hloop)
        as (P & L & -> & HP & HL).
      exists (pname :: P), (lname :: L). rewrite <- !app_assoc. simpl.
      repeat split; by constructor.
Qed.

End one_example_weights.

Section one_batch_weights.
Variables (pred_ids label_ids weights : matrix) (n : nat).
Hypothesis Hshape : pred_ids ≠ [] → shape1 pred_ids = n.

Lemma example_loop_nonzero : ∀ (prs lrs wrs : matrix) (k : nat) all_preds all_labels out,
  drop k pred_ids = prs → drop k label_ids = lrs → drop k weights = wrs →
  length lrs = length prs → length wrs = length prs →
  Forall (fun r => length r = n) prs →
  Forall (fun r => length r = n) lrs →
  Forall (fun r => length r = n) wrs →
  example_loop id2label pred_ids label_ids weights
    (seq k (length prs)) all_preds all_labels = Ok out →
  ∃ per : list (list string * list string),
    out = (all_preds ++ twice per.*1, all_labels ++ twice per.*2) ∧
    Forall2 (example_result_nonzero id2label) (zip (zip prs lrs) wrs) per.
Proof.
  induction prs as [|pr prs IH];
    intros lrs wrs k all_preds all_labels out Hdp Hdl Hdw Hll Hlw Hnp Hnl Hnw.
  - simpl. intros [= <-]. exists []. simpl. rewrite !app_nil_r.
    split; [done|constructor].
  - destruct lrs as [|lr lrs]; [done|]. destruct wrs as [|wr wrs]; [done|].
    apply drop_cons_inv in Hdp as [Hp Hdp].
    apply drop_cons_inv in Hdl as [Hl Hdl].
    apply drop_cons_inv in Hdw as [Hw Hdw].
    apply Forall_cons in Hnp as [Hnp1 Hnp].
    apply Forall_cons in Hnl as [Hnl1 Hnl].
    apply Forall_cons in Hnw as [Hnw1 Hnw].
    simpl in Hll, Hlw.
    assert (shape1 pred_ids = length wr) as Hs.
    { rewrite Hnw1. apply Hshape. intros ->. done. }
    simpl. rewrite Hs.
    destruct (position_loop _ _ _ _ _ _ _ _) as [[preds labels]|e] eqn:Hpos;
      simpl; [|done].
    destruct (position_loop_nonzero pred_ids label_ids weights k pr lr wr Hp Hl Hw
                wr pr lr 0%nat [] [] _ eq_refl eq_refl eq_refl
                ltac:(congruence) ltac:(congruence) Hpos)
      as (P & L & [= -> ->] & HP & HL).
    intros Hloop.
    destruct (IH lrs wrs (S k) _ _ _ Hdp Hdl Hdw ltac:(lia) ltac:(lia)
                Hnp Hnl Hnw Hloop) as (per & -> & Hper).
    exists ((P, L) :: per). simpl. rewrite <- !app_assoc. simpl.
    split; [done|]. by constructor.
Qed.

End one_batch_weights.

Lemma batch_loop_nonzero (dataset : list Batch) : ∀ all_preds all_labels out,
  Forall (fun b => same_shape (predict score_ltb model b) (b_labels b) (b_weights b))
    dataset →
  batch_loop score_ltb model id2label dataset all_preds all_labels = Ok out →
  ∃ per : list (list string * list string),
    out = (all_preds ++ twice per.*1, all_labels ++ twice per.*2) ∧
    Forall2 (example_result_nonzero id2label)
      (dataset ≫= examples_of score_ltb model) per.
Proof.
  induction dataset as [|b dataset IH]; intros all_preds all_labels out Hshape.
  - simpl. intros [= <-]. exists []. simpl. rewrite !app_nil_r.
    split; [done|constructor].
  - apply Forall_cons in Hshape as [(n & Hll & Hlw & Hnp & Hnl & Hnw) Hshape].
    simpl. unfold shape0.
    destruct (example_loop _ _ _ _ _ _ _) as [out1|e] eqn:Hex; simpl; [|done].
    destruct (example_loop_nonzero (predict score_ltb model b) (b_labels b)
                (b_weights b) n) with
      (prs := predict score_ltb model b) (lrs := b_labels b) (wrs := b_weights b)
      (k := 0%nat) (all_preds := all_preds) (all_labels := all_labels) (out := out1)
      as (per1 & -> & Hper1); try done.
    { destruct (predict score_ltb model b) as [|r rs]; [done|].
      intros _. simpl. by apply Forall_cons in Hnp as [? _]. }
    intros Hloop.
    destruct (IH _ _ _ Hshape Hloop) as (per2 & -> & Hper2).
    exists (per1 ++ per2). rewrite !fmap_app, !twice_app, !app_assoc.
    split; [done|]. by apply Forall2_app.
Qed.

(** A position is scored exactly when its weight is not 0, whatever the
    weight is: on batches of one shape, the lists of an example in a
    returned output are the label names of its predicted and of its true
    ids at the positions of nonzero weight, in position order. *)
Theorem seqeval_scores_nonzero_weights (dataset : list Batch) ps ls :
  Forall (fun b => same_shape (predict score_ltb model b) (b_labels b) (b_weights b))
    dataset →
  get_seqeval_input score_ltb model dataset id2label = Ok (ps, ls) →
  ∃ per : list (list string * list string),
    ps = twice per.*1 ∧ ls = twice per.*2 ∧
    Forall2 (example_result_nonzero id2label)
      (dataset ≫= examples_of score_ltb model) per.
Proof.
  intros Hshape Hget. unfold get_seqeval_input in Hget.
  destruct (batch_loop_nonzero dataset [] [] _ Hshape Hget) as (per & [= -> ->] & Hper).
  by exists per.
Qed.

End aggregator_weights.

(** ** Batch Dataset Builder *)

Section dataset_more.
Import Dataset.









End dataset_more.

(** ** Text extraction: paths *)

Section path_facts.
Import InputToText.

Lemma rfind_from_app (a b : str) (c : N) : ∀ i found,
  rfind_from i (a ++ b) c found
  = rfind_from (i + Z.of_nat (length a)) b c (rfind_from i a c found).
Proof.
  induction a as [|x a IH]; intros i found; simpl.
  - by rewrite Z.add_0_r.
  - rewrite IH. f_equal. lia.
Qed.

Lemma rfind_from_absent (b : str) (c : N) : ∀ i found,
  Forall (fun x => x ≠ c) b → rfind_from i b c found = found.
Proof.
  induction b as [|x b IH]; intros i found Hb; simpl; [done|].
  apply Forall_cons in Hb as [Hx Hb]. rewrite decide_False by done. by apply IH.
Qed.

Lemma rfind_from_bounds (b : str) (c : N) : ∀ i found,
  (found < i)%Z →
  (found ≤ rfind_from i b c found < i + Z.of_nat (length b))%Z.
Proof.
  induction b as [|x b IH]; intros i found Hlt; simpl; [lia|].
  destruct (decide (x = c)).
  - specialize (IH (i + 1)%Z i ltac:(lia)). lia.
  - specialize (IH (i + 1)%Z found ltac:(lia)). lia.
Qed.

Lemma rfind_bounds (p : str) (c : N) :
  (-1 ≤ rfind p c < Z.of_nat (length p))%Z.
Proof. unfold rfind. pose proof (rfind_from_bounds p c 0 (-1)). lia. Qed.

Lemma rfind_app_absent (a b : str) (c : N) :
  Forall (fun x => x ≠ c) b → rfind (a ++ b) c = rfind a c.
Proof. intros Hb. unfold rfind. by rewrite rfind_from_app, rfind_from_absent. Qed.

Lemma rfind_snoc_hit (a : str) (c : N) :
  rfind (a ++ [c]) c = Z.of_nat (length a).
Proof.
  unfold rfind. rewrite rfind_from_app. simpl. rewrite decide_True by done. lia.
Qed.

Variable os : os_flavour.

Lemma sep_index_bounds (p : str) : (-1 ≤ sep_index os p < Z.of_nat (length p))%Z.
Proof.
  unfold sep_index. pose proof (rfind_bounds p (sep os)).
  destruct (altsep os) as [a|]; [|done]. pose proof (rfind_bounds p a). lia.
Qed.

Lemma sep_index_app_plain (a b : str) :
  Forall (fun x => ¬ is_sep os x) b → sep_index os (a ++ b) = sep_index os a.
Proof.
  intros Hb. unfold sep_index.
  rewrite (rfind_app_absent a b (sep os)).
  - destruct (altsep os) as [s|] eqn:Hs; [|done].
    rewrite (rfind_app_absent a b s); [done|].
    eapply Forall_impl; [exact Hb|]. intros x Hx ->. apply Hx. by right.
  - eapply Forall_impl; [exact Hb|]. intros x Hx ->. apply Hx. by left.
Qed.

Lemma sep_index_snoc (a : str) (s : N) :
  is_sep os s → sep_index os (a ++ [s]) = Z.of_nat (length a).
Proof.
  intros Hs. unfold sep_index. unfold is_sep in Hs.
  pose proof (rfind_bounds (a ++ [s]) (sep os)) as H1.
  rewrite length_app in H1. simpl in H1.
  destruct (altsep os) as [alt|] eqn:Halt.
  - pose proof (rfind_bounds (a ++ [s]) alt) as H2.
    rewrite length_app in H2. simpl in H2.
    destruct Hs as [->|[= ->]].
    + rewrite rfind_snoc_hit in *. lia.
    + rewrite (rfind_snoc_hit a s) in *. lia.
  - destruct Hs as [->|Hs]; [|done]. apply rfind_snoc_hit.
Qed.

Lemma extsep_not_sep : ¬ is_sep os extsep.
Proof. intros [H|H]; destruct os; done. Qed.

Lemma splitext_unfold (p : str) :
  splitext os p =
  match (if decide (rfind p extsep > sep_index os p)%Z then
           skip_leading_dots
             (Z.to_nat (rfind p extsep - (sep_index os p + 1))) p
             (sep_index os p + 1) (rfind p extsep)
         else None) with
  | Some r => r
  | None => (p, [])
  end.
Proof. unfold splitext, sep_index. by destruct (altsep os). Qed.

(** The loop stops at the first character of the name that is not a dot. *)
Lemma skip_leading_dots_found (p : str) (d k : Z) (x : N) :
  p !! Z.to_nat k = Some x → x ≠ extsep → (k < d)%Z →
  ∀ fuel f, (0 ≤ f ≤ k)%Z → (d - f ≤ Z.of_nat fuel)%Z →
  skip_leading_dots fuel p f d
  = Some (take (Z.to_nat d) p, drop (Z.to_nat d) p).
Proof.
  intros Hk Hx Hkd. induction fuel as [|fuel IH]; intros f Hf Hfuel; [lia|].
  simpl. rewrite decide_True by lia.
  destruct (decide (p !! Z.to_nat f ≠ Some extsep)) as [|Hdot]; [done|].
  apply IH; [|lia]. destruct (decide (f = k)) as [->|]; [|lia].
  destruct Hdot. rewrite Hk. by intros [= ->].
Qed.

(** The loop runs out when the name holds dots only. *)
Lemma skip_leading_dots_none (p : str) (d : Z) :
  ∀ fuel f, (0 ≤ f)%Z →
  (∀ j, (f ≤ j < d)%Z → p !! Z.to_nat j = Some extsep) →
  skip_leading_dots fuel p f d = None.
Proof.
  induction fuel as [|fuel IH]; intros f Hf Hdots; [done|]. simpl.
  destruct (decide (f < d)%Z) as [Hlt|]; [|done].
  rewrite decide_False.
  - apply IH; [lia|]. intros j Hj. apply Hdots. lia.
  - intros Hne. apply Hne, Hdots. lia.
Qed.

(** A name that ends in a plain character, then a dot and plain characters:
    the extension is the dot and what follows. *)
Lemma splitext_name_ext (stem : str) (c : N) (e : str) :
  plain_char os c → Forall (plain_char os) e →
  splitext os (stem ++ [c] ++ extsep :: e) = (stem ++ [c], extsep :: e).
Proof.
  intros [Hc Hcs] He. rewrite splitext_unfold.
  set (p := stem ++ [c] ++ extsep :: e).
  assert (rfind p extsep = Z.of_nat (length stem) + 1)%Z as Hdot.
  { unfold p. change (stem ++ [c] ++ extsep :: e)
      with (stem ++ [c] ++ [extsep] ++ e).
    rewrite !app_assoc, rfind_app_absent.
    - rewrite rfind_snoc_hit, length_app. simpl. lia.
    - eapply Forall_impl; [exact He|]. by intros x [? _]. }
  assert (sep_index os p = sep_index os stem) as Hsep.
  { unfold p. apply sep_index_app_plain. constructor; [done|].
    constructor; [apply extsep_not_sep|].
    eapply Forall_impl; [exact He|]. by intros x [_ ?]. }
  pose proof (sep_index_bounds stem) as Hb.
  rewrite Hdot, Hsep. rewrite decide_True by lia.
  rewrite (skip_leading_dots_found p _ (Z.of_nat (length stem)) c); try lia; try done.
  - replace (Z.to_nat (Z.of_nat (length stem) + 1)) with (length (stem ++ [c]))
      by (rewrite length_app; simpl; lia).
    unfold p. rewrite app_assoc. by rewrite take_app_length, drop_app_length.
  - rewrite Nat2Z.id. unfold p. by apply (list_lookup_middle stem (extsep :: e) c).
Qed.

(** A last component made of dots and then plain characters has no
    extension. *)
Lemma splitext_no_ext (dir dots name : str) :
  dir = [] ∨ (∃ dir' s, dir = dir' ++ [s] ∧ is_sep os s) →
  Forall (fun x => x = extsep) dots → Forall (plain_char os) name →
  splitext os (dir ++ dots ++ name) = (dir ++ dots ++ name, []).
Proof.
  intros Hdir Hdots Hname. rewrite splitext_unfold.
  set (p := dir ++ dots ++ name).
  assert (sep_index os p = Z.of_nat (length dir) - 1)%Z as Hsep.
  { unfold p. rewrite sep_index_app_plain.
    - destruct Hdir as [->|(dir' & s & -> & Hs)].
      + unfold sep_index, rfind. simpl. by destruct (altsep os).
      + rewrite sep_index_snoc by done. rewrite length_app. simpl. lia.
    - apply Forall_app. split.
      + eapply Forall_impl; [exact Hdots|]. intros x ->. apply extsep_not_sep.
      + eapply Forall_impl; [exact Hname|]. by intros x [_ ?]. }
  assert (Hnodot : Forall (fun x => x ≠ extsep) name).
  { eapply Forall_impl; [exact Hname|]. by intros x [? _]. }
  destruct (decide (rfind p extsep > sep_index os p)%Z) as [Hgt|]; [|done].
  rewrite skip_leading_dots_none; [done|lia|].
  intros j Hj. rewrite Hsep in Hj.
  assert (rfind p extsep < Z.of_nat (length dir + length dots))%Z as Hlt.
  { unfold p. rewrite app_assoc, rfind_app_absent by done.
    pose proof (rfind_bounds (dir ++ dots) extsep) as Hb.
    rewrite length_app in Hb. lia. }
  unfold p. rewrite lookup_app_r by lia. rewrite lookup_app_l by lia.
  destruct (dots !! (Z.to_nat j - length dir)%nat) as [x|] eqn:Hx.
  - f_equal. by eapply (proj1 (Forall_lookup _ _) Hdots).
  - apply lookup_ge_None_1 in Hx. lia.
Qed.

End path_facts.

(** ** Text extraction: dispatch on real paths, cleaning *)

Section text_more.
Import InputToText.

Variable unicode_lower : N → list N.
Variable unicode_decimal : N → bool.
Variable os : os_flavour.
Variables docx_to_text pdf_to_text read_file : str → string + str.

Hypothesis lower_ascii : ∀ c, (c < 128)%N → unicode_lower c = [ascii_lower c].

Local Abbreviation clean := (clean_cv_text unicode_lower unicode_decimal).
Local Abbreviation extract :=
  (extract_text unicode_lower unicode_decimal os docx_to_text pdf_to_text read_file).

(** A path without an extension is refused: when the last component has no
    dot, or dots at its start only (a path such as cv, my.dir/cv or .txt),
    the error is the unsupported-file-type error with an empty type, and no
    converter is called. *)
Theorem extract_text_without_extension (dir dots name : str) :
  dir = [] ∨ (∃ dir' s, dir = dir' ++ [s] ∧ is_sep os s) →
  Forall (fun x => x = extsep) dots → Forall (plain_char os) name →
  extract (dir ++ dots ++ name) = Raise (unsupported (py "")).
Proof.
  intros Hdir Hdots Hname.
  destruct (extract_text_dispatch unicode_lower unicode_decimal os
              docx_to_text pdf_to_text read_file (dir ++ dots ++ name))
    as (_ & _ & _ & Hother).
  rewrite (splitext_no_ext os dir dots name Hdir Hdots Hname) in Hother.
  apply Hother. unfold supported_types. rewrite !not_elem_of_cons.
  repeat split; try discriminate. apply not_elem_of_nil.
Qed.

Lemma casing_is_plain (e t : str) :
  ascii_lower <$> e = t → Forall (fun y => (97 ≤ y ≤ 122)%N) t →
  Forall (plain_char os) e.
Proof.
  intros <- Ht. apply Forall_fmap in Ht. eapply Forall_impl; [exact Ht|].
  intros x Hx. simpl in Hx. unfold ascii_lower, ascii_upper in Hx.
  assert (x ≠ 46 ∧ x ≠ 47 ∧ x ≠ 92)%N as (H1 & H2 & H3).
  { destruct (65 <=? x)%N eqn:E1, (x <=? 90)%N eqn:E2; simpl in Hx;
      try apply N.leb_le in E1; try apply N.leb_le in E2;
      try apply N.leb_gt in E1; try apply N.leb_gt in E2; lia. }
  split; [done|]. intros [->|Hs]; destruct os; simpl in *; congruence.
Qed.

(** A file name that ends in a plain character, followed by a dot and docx,
    pdf or txt in any casing of the letters, is handed to the converter of
    that type, whatever directories come before; the text is cleaned and a
    failure of the converter is passed on. *)
Theorem extract_text_routes_by_extension (stem : str) (c : N) (e : str) :
  plain_char os c →
  let filepath := stem ++ [c] ++ extsep :: e in
  (ascii_lower <$> e = py "docx" →
     extract filepath = clean <$> external (docx_to_text filepath)) ∧
  (ascii_lower <$> e = py "pdf" →
     extract filepath = clean <$> external (pdf_to_text filepath)) ∧
  (ascii_lower <$> e = py "txt" →
     extract filepath = clean <$> external (read_file filepath)).
Proof.
  intros Hc filepath.
  destruct (extract_text_dispatch unicode_lower unicode_decimal os
              docx_to_text pdf_to_text read_file filepath)
    as (Hdocx & Hpdf & Htxt & _).
  assert (Htype : ∀ t, Forall (fun y => (97 ≤ y ≤ 122)%N) t →
            ascii_lower <$> e = t →
            lower unicode_lower (splitext os filepath).2 = extsep :: t).
  { intros t Ht He. unfold filepath.
    rewrite (splitext_name_ext os stem c e Hc (casing_is_plain e t He Ht)).
    apply (lower_of_casing unicode_lower lower_ascii).
    - constructor; [done|]. eapply Forall_impl; [exact Ht|].
      intros y Hy. cbv beta in *. lia.
    - rewrite <- He. reflexivity. }
  repeat split; intros He.
  - apply Hdocx, (Htype (py "docx")); [|done]. by repeat constructor.
  - apply Hpdf, (Htype (py "pdf")); [|done]. by repeat constructor.
  - apply Htxt, (Htype (py "txt")); [|done]. by repeat constructor.
Qed.

(** *** Cleaning *)

Lemma lstrip_all_space (s : str) :
  Forall (fun c => isspace c = true) s → lstrip s = [].
Proof. induction 1 as [|c s Hc _ IH]; simpl; [done|]. by rewrite Hc. Qed.

(** Text that is whitespace only after lowercasing, the empty text
    included, is cleaned to the empty text. *)
Theorem clean_cv_text_blank (text : str) :
  Forall (fun c => isspace c = true) (lower unicode_lower text) →
  clean text = [].
Proof.
  intros Hblank. unfold clean_cv_text, strip, rstrip.
  rewrite lstrip_all_space; [done|].
  apply Forall_reverse, lstrip_Forall.
  repeat (apply re_sub_Forall; [by repeat constructor|]). done.
Qed.

Lemma many1_space_match (s : str) :
  match_here whitespace s
  = match space_run s with O => None | S n => Some (S n) end.
Proof.
  unfold whitespace. simpl.
  induction s as [|c s IH]; simpl; [done|].
  destruct (isspace c); [|done]. rewrite IH.
  by destruct (space_run s).
Qed.

Lemma space_run_0 (s : str) : space_run s = 0%nat → starts_without_space s.
Proof.
  destruct s as [|c s]; intros Hrun d; simpl; [done|].
  intros [= <-]. simpl in Hrun. by destruct (isspace c).
Qed.

Lemma no_adjacent_space_cons (c : N) (s : str) :
  (isspace c = false ∨ starts_without_space s) →
  no_adjacent_space s = true → no_adjacent_space (c :: s) = true.
Proof.
  intros Hc Hs. destruct s as [|d s]; [done|].
  change (negb (isspace c && isspace d) && no_adjacent_space (d :: s) = true).
  rewrite Hs, andb_true_r. destruct Hc as [->|Hd]; [done|].
  rewrite (Hd d eq_refl). by destruct (isspace c).
Qed.

(** After the whitespace substitution no two whitespace characters are
    adjacent. While a run is being dropped, [skip] is what is left of it. *)
Lemma collapse_no_adjacent (s : str) : ∀ skip,
  skip = 0%nat ∨ skip = space_run s →
  no_adjacent_space (sub_go whitespace (py " ") s skip) = true ∧
  (skip ≠ 0%nat ∨ starts_without_space s →
   starts_without_space (sub_go whitespace (py " ") s skip)).
Proof.
  induction s as [|c s IH]; intros skip Hskip; [by destruct skip|].
  destruct skip as [|k].
  - cbn [sub_go]. rewrite many1_space_match. cbn [space_run].
    destruct (isspace c) eqn:Hc.
    + destruct (IH (space_run s)) as [Hadj Hstart]; [by right|].
      assert (starts_without_space (sub_go whitespace (py " ") s (space_run s)))
        as Hout.
      { apply Hstart. destruct (space_run s) eqn:Hrun; [right|by left].
        by apply space_run_0. }
      split.
      * apply (no_adjacent_space_cons 32); [by right|done].
      * intros [?|Hs]; [done|]. specialize (Hs c eq_refl). congruence.
    + destruct (IH 0%nat) as [Hadj _]; [by left|].
      split.
      * apply no_adjacent_space_cons; [by left|done].
      * intros _ d [= <-]. done.
  - destruct Hskip as [|Hskip]; [done|]. cbn [space_run] in Hskip.
    destruct (isspace c); [|done]. injection Hskip as ->.
    cbn [sub_go]. destruct (IH (space_run s)) as [Hadj Hstart]; [by right|].
    split; [done|]. intros _. apply Hstart.
    destruct (space_run s) eqn:Hrun; [right|by left]. by apply space_run_0.
Qed.

Lemma sub_go_no_match (pat : list item) (repl s : str) :
  contains pat s = false → sub_go pat repl s 0 = s.
Proof.
  induction s as [|c s IH]; [done|]. cbn [contains sub_go].
  intros [Hm Hrest]%orb_false_elim.
  destruct (match_here pat (c :: s)) as [n|] eqn:Hmatch.
  - apply bool_decide_eq_false in Hm. destruct Hm. by eexists.
  - by rewrite IH.
Qed.

Lemma glyph_free_contains (s : str) :
  Forall (fun c => is_glyph c = false) s → contains glyphs s = false.
Proof.
  induction 1 as [|c s Hc _ IH]; [done|]. cbn [contains].
  rewrite IH, orb_false_r. apply bool_decide_eq_false.
  unfold glyphs. simpl. rewrite Hc. by intros [? ?].
Qed.

Lemma lstrip_suffix (s : str) : ∃ k, s = k ++ lstrip s.
Proof.
  induction s as [|c s [k IH]]; [by exists []|]. simpl.
  destruct (isspace c); [|by exists []].
  exists (c :: k). simpl. by rewrite <- IH.
Qed.

Lemma no_adjacent_space_app (a b : str) :
  no_adjacent_space (a ++ b) = true →
  no_adjacent_space a = true ∧ no_adjacent_space b = true.
Proof.
  induction a as [|c a IH]; [done|].
  destruct a as [|d a].
  - intros H. split; [done|]. destruct b as [|e b]; [done|].
    simpl in H. by apply andb_true_iff in H as [_ ?].
  - change (negb (isspace c && isspace d) && no_adjacent_space ((d :: a) ++ b) = true
            → negb (isspace c && isspace d) && no_adjacent_space (d :: a) = true
              ∧ no_adjacent_space b = true).
    intros [-> H]%andb_true_iff. by destruct (IH H) as [-> ->].
Qed.

Lemma strip_no_adjacent (s : str) :
  no_adjacent_space s = true → no_adjacent_space (strip s) = true.
Proof.
  intros Hs. unfold strip, rstrip.
  destruct (lstrip_suffix s) as [k Hk]. rewrite Hk in Hs.
  apply no_adjacent_space_app in Hs as [_ Hs].
  destruct (lstrip_suffix (reverse (lstrip s))) as [k' Hk'].
  apply (f_equal reverse) in Hk'. rewrite reverse_involutive, reverse_app in Hk'.
  rewrite Hk' in Hs. by apply no_adjacent_space_app in Hs as [Hs _].
Qed.

(** Where nothing is removed after the collapsing, the cleaned text has
    normalized whitespace: for text without bullet or long-dash glyphs
    whose collapsed form holds no page footer, no two whitespace characters
    are adjacent and none stands at either end. *)
Theorem clean_cv_text_normalized (text : str) :
  Forall (fun c => is_glyph c = false) (lower unicode_lower text) →
  contains (page_footer unicode_decimal) (collapsed unicode_lower text) = false →
  normalized_whitespace (clean text).
Proof.
  intros Hglyph Hfooter.
  assert (clean text = strip (collapsed unicode_lower text)) as ->.
  { unfold clean_cv_text. fold (collapsed unicode_lower text).
    unfold re_sub at 2. rewrite (sub_go_no_match _ _ _ Hfooter).
    unfold re_sub at 1. rewrite sub_go_no_match; [done|].
    apply glyph_free_contains. unfold collapsed.
    repeat (apply re_sub_Forall; [by repeat constructor|]). done. }
  split; [|apply strip_no_outer_space].
  apply strip_no_adjacent. unfold collapsed, re_sub.
  apply collapse_no_adjacent. by left.
Qed.

End text_more.

(** ** Command-line entry point *)

Section main_more.
Import Main.

Variables (Tokenizer Model : Type).
Variable load_skillner : string + (Tokenizer * Model).
Variable extract_text : str → result str.

(** How every call of the entry point ends: nothing is printed, and the
    exception is the one of the text extraction if that fails (the model is
    then not loaded), else the one of the model loading, else the TypeError
    of the call of [extract_skills]. The user id and the user type play no
    part. *)
Theorem run_main_pipeline_outcome (filepath : str) (userID : Z) (userType : str) :
  run_main_pipeline Tokenizer Model load_skillner extract_text
    filepath userID userType
  = ([], Raise
           match extract_text filepath with
           | Raise e => e
           | Ok _ =>
               match load_skillner with
               | inl e => ExternalError e
               | inr _ =>
                   TypeError
                     "extract_skills() got an unexpected keyword argument 'model'"
               end
           end).
Proof.
  unfold run_main_pipeline.
  destruct (extract_text filepath) as [input|e]; [|done].
  destruct load_skillner as [e|[t m]]; [done|].
  cbn [mbind result_bind]. by rewrite extract_skills_keyword_call.
Qed.

End main_more.

(** ** Label vocabulary *)

Section label_maps.
Import Jobbert.

Lemma make_label2id_snoc (labels : list string) (l : string) :
  make_label2id (labels ++ [l])
  = <[l := Z.of_nat (length labels)]> (make_label2id labels).
Proof.
  unfold make_label2id. rewrite imap_app, foldl_app. simpl.
  by rewrite Nat.add_0_r.
Qed.

Lemma make_label2id_lookup (labels : list string) :
  NoDup labels →
  ∀ l i, make_label2id labels !! l = Some i ↔
         ∃ n, i = Z.of_nat n ∧ labels !! n = Some l.
Proof.
  induction labels as [|x labels IH] using rev_ind; intros Hnd l i.
  - unfold make_label2id. simpl. rewrite lookup_empty.
    split; [done|]. by intros (n & _ & ?).
  - apply NoDup_app in Hnd as (Hnd & Hfresh & _).
    rewrite make_label2id_snoc. destruct (decide (x = l)) as [->|Hne].
    + rewrite lookup_insert_eq. split.
      * intros [= <-]. exists (length labels). by rewrite list_lookup_middle.
      * intros (n & -> & Hn). f_equal. f_equal.
        destruct (decide (n < length labels)%nat) as [Hlt|Hge].
        -- rewrite lookup_app_l in Hn by done.
           destruct (Hfresh l); [by eapply list_elem_of_lookup_2|].
           by apply list_elem_of_singleton.
        -- apply lookup_lt_Some in Hn. rewrite length_app in Hn. simpl in Hn. lia.
    + rewrite lookup_insert_ne by done. rewrite (IH Hnd). split.
      * intros (n & -> & Hn). exists n. split; [done|].
        rewrite lookup_app_l; [done|]. by eapply lookup_lt_Some.
      * intros (n & -> & Hn). exists n. split; [done|].
        destruct (decide (n < length labels)%nat) as [Hlt|Hge].
        -- by rewrite lookup_app_l in Hn.
        -- rewrite lookup_app_r in Hn by lia.
           destruct (n - length labels)%nat; simpl in Hn; [congruence|done].
Qed.

Lemma foldl_insert_swap (entries : list (string * Z)) : ∀ (m : gmap Z string) i l,
  NoDup entries.*2 →
  foldl (fun m li => <[li.2 := li.1]> m) m entries !! i = Some l ↔
  (l, i) ∈ entries ∨ ((i ∉ entries.*2) ∧ m !! i = Some l).
Proof.
  induction entries as [|[l0 i0] entries IH]; intros m i l Hnd; simpl.
  - rewrite elem_of_nil. split; [intros; right; split; [apply not_elem_of_nil|done]|].
    by intros [[]|[_ ?]].
  - apply NoDup_cons in Hnd as [Hi0 Hnd]. rewrite (IH _ _ _ Hnd).
    rewrite elem_of_cons, not_elem_of_cons. split.
    + intros [Hin|[Hni Hm]]; [by left; right|].
      destruct (decide (i0 = i)) as [->|Hne].
      * rewrite lookup_insert_eq in Hm. injection Hm as ->. by left; left.
      * rewrite lookup_insert_ne in Hm by done. right. by repeat split.
    + intros [[[= -> ->]|Hin]|[[Hne Hni] Hm]].
      * right. split; [done|]. by rewrite lookup_insert_eq.
      * by left.
      * right. split; [done|]. by rewrite lookup_insert_ne.
Qed.

Lemma make_id2label_lookup (labels : list string) :
  NoDup labels →
  ∀ l i, make_label2id labels !! l = Some i ↔
         make_id2label (make_label2id labels) !! i = Some l.
Proof.
  intros Hnd l i.
  pose proof (make_label2id_lookup labels Hnd) as Hl2i.
  assert (Hvalues : NoDup (map_to_list (make_label2id labels)).*2).
  { apply NoDup_fmap_2_strong; [|apply NoDup_map_to_list].
    intros [l1 i1] [l2 i2] H1%elem_of_map_to_list H2%elem_of_map_to_list Heq.
    simpl in Heq. subst i2.
    apply Hl2i in H1 as (n1 & -> & H1). apply Hl2i in H2 as (n2 & Hn & H2).
    apply Nat2Z.inj in Hn. subst n2. congruence. }
  unfold make_id2label.
  rewrite (foldl_insert_swap _ ∅ i l Hvalues), elem_of_map_to_list.
  split; [by left|]. intros [?|[_ Hempty]]; [done|].
  by rewrite lookup_empty in Hempty.
Qed.

(** For a label list without repetition the two dictionaries are inverse
    to each other and follow the list order: label [l] stands at index [n]
    of the list exactly when [label2id[l] = n], and exactly when
    [id2label[n] = l]. *)
Theorem label_maps_are_inverse (labels : list string) :
  NoDup labels →
  let l2i := make_label2id labels in
  let i2l := make_id2label l2i in
  (∀ n l, labels !! n = Some l ↔ l2i !! l = Some (Z.of_nat n)) ∧
  (∀ l i, l2i !! l = Some i ↔ i2l !! i = Some l) ∧
  (∀ i l, i2l !! i = Some l → ∃ n, i = Z.of_nat n ∧ labels !! n = Some l).
Proof.
  intros Hnd l2i i2l. subst l2i i2l.
  pose proof (make_label2id_lookup labels Hnd) as Hl2i.
  pose proof (make_id2label_lookup labels Hnd) as Hi2l.
  split; [|split; [exact Hi2l|]].
  - intros n l. rewrite Hl2i. split.
    + intros Hn. by exists n.
    + intros (n' & Heq & Hn'). apply Nat2Z.inj in Heq. by subst n'.
  - intros i l Hi. apply Hi2l in Hi. by apply Hl2i in Hi.
Qed.

Lemma label_list_NoDup : NoDup label_list.
Proof. apply (bool_decide_unpack _). vm_compute. exact I. Qed.

(** The vocabulary built in jobbert.py is the one of the aggregator
    examples. *)
Example jobbert_id2label : Jobbert.id2label = Evaluation.id2label.
Proof.
  apply map_eq. intros i.
  destruct (decide (i = 0)) as [->|?]; [by vm_compute|].
  destruct (decide (i = 1)) as [->|?]; [by vm_compute|].
  destruct (decide (i = 2)) as [->|?]; [by vm_compute|].
  transitivity (@None string).
  - destruct (id2label !! i) as [l|] eqn:Hi; [|done].
    apply (make_id2label_lookup _ label_list_NoDup) in Hi.
    apply (make_label2id_lookup _ label_list_NoDup) in Hi as (k & -> & Hk).
    apply lookup_lt_Some in Hk. simpl in Hk. lia.
  - symmetry. unfold Evaluation.id2label, Evaluation.label2id.
    apply not_elem_of_list_to_map_1. vm_compute.
    intros H. apply list_elem_of_In in H. simpl in H. intuition lia.
Qed.

End label_maps.

(** ** The further properties on concrete inputs *)

Lemma aligner_keeps_tokenizer_output_witness :
  ∃ enc,
    Encoder.tokenize_and_align_labels (Encoder.sample_tokenizer 256)
      Encoder.sample_tokens Encoder.sample_tags = Ok enc ∧
    Encoder.input_ids enc = [101; 1004; 1011; 2000; 1003; 102] ∧
    length (Encoder.labels enc) = 6%nat ∧
    length (Encoder.label_mask enc) = 6%nat.
Proof.
  eexists. split; [exact sample_alignment|].
  destruct (aligner_keeps_tokenizer_output (Encoder.sample_tokenizer 256)
              Encoder.sample_tokens Encoder.sample_tags _ sample_alignment)
    as (Hids & _ & HlenL & HlenM).
  split; [exact Hids|]. split; [exact HlenL | exact HlenM].
Defined.

Lemma aligner_mask_is_bits_witness :
  Forall (fun m => m = 0 ∨ m = 1) [0; 1; 1; 0; 1; 0].
Proof.
  exact (aligner_mask_is_bits (Encoder.sample_tokenizer 256)
           Encoder.sample_tokens Encoder.sample_tags _ sample_alignment).
Defined.

Lemma aligner_counts_each_word_once_witness :
  Encoder.word_ids_contiguous
    (Encoder.tok_word_ids (Encoder.sample_tokenizer 256 Encoder.sample_tokens)) ∧
  count_ones [0; 1; 1; 0; 1; 0]
  = size (words_present
            (Encoder.tok_word_ids
               (Encoder.sample_tokenizer 256 Encoder.sample_tokens))).
Proof.
  assert (Hcontig : Encoder.word_ids_contiguous
            (Encoder.tok_word_ids
               (Encoder.sample_tokenizer 256 Encoder.sample_tokens))).
  { intros i j k w Hij Hjk Hi Hk. rewrite sample_word_ids in *.
    index_cases i Hi; index_cases k Hk; solve [lia | congruence]. }
  split; [exact Hcontig|].
  exact (aligner_counts_each_word_once (Encoder.sample_tokenizer 256)
           Encoder.sample_tokens Encoder.sample_tags _ Hcontig sample_alignment).
Defined.

Lemma aligner_ignores_absent_words_witness :
  Encoder.tokenize_and_align_labels (Encoder.sample_tokenizer 4)
    Encoder.sample_tokens [1; 2; 0]
  = Encoder.tokenize_and_align_labels (Encoder.sample_tokenizer 4)
      Encoder.sample_tokens [1; 2; 9; 9].
Proof.
  apply aligner_ignores_absent_words.
  change (Encoder.tok_word_ids _) with [None; Some 0%nat; Some 1%nat; None].
  intros w Hw.
  repeat (apply elem_of_cons in Hw as [Hw|Hw];
          [try discriminate Hw; injection Hw as ->; reflexivity|]).
  by apply elem_of_nil in Hw.
Defined.

Lemma seqeval_outputs_are_parallel_witness :
  Forall2 (fun p l : list string => length p = length l)
    [["O"; "B-SKILL"; "O"]; ["O"; "B-SKILL"; "O"]]%string
    [["B-SKILL"; "I-SKILL"; "O"]; ["B-SKILL"; "I-SKILL"; "O"]]%string.
Proof.
  exact (seqeval_outputs_are_parallel Z.ltb Evaluation.sample_model
           Evaluation.id2label [Evaluation.sample_batch] _ _
           sample_seqeval_output).
Defined.


Lemma seqeval_scores_nonzero_weights_witness :
  ∃ per : list (list string * list string),
    [["O"; "B-SKILL"; "O"]; ["O"; "B-SKILL"; "O"]]%string
      = Evaluation.twice per.*1 ∧
    [["B-SKILL"; "I-SKILL"; "O"]; ["B-SKILL"; "I-SKILL"; "O"]]%string
      = Evaluation.twice per.*2 ∧
    Forall2 (example_result_nonzero Evaluation.id2label)
      ([weighted_batch] ≫= Evaluation.examples_of Z.ltb Evaluation.sample_model)
      per.
Proof.
  apply (seqeval_scores_nonzero_weights Z.ltb Evaluation.sample_model
           Evaluation.id2label [weighted_batch]).
  - constructor; [|constructor]. exists 6%nat.
    repeat split; try reflexivity; repeat (constructor; try reflexivity).
  - vm_compute. reflexivity.
Defined.



Ltac plain_chars :=
  repeat (constructor;
          [split; [discriminate | intros [H|H]; discriminate H]|]);
  try constructor.

Lemma extract_text_without_extension_witness :
  InputToText.sample_extract_text (py "my.dir/cv")
  = Raise (InputToText.unsupported (py "")).
Proof.
  apply (extract_text_without_extension InputToText.ascii_only_lower
           InputToText.ascii_digit InputToText.Posix InputToText.sample_docx
           InputToText.sample_pdf InputToText.sample_read
           (py "my.dir/") [] (py "cv")).
  - right. exists (py "my.dir"), 47%N. split; [reflexivity|]. left. reflexivity.
  - constructor.
  - plain_chars.
Defined.

Lemma extract_text_routes_by_extension_witness :
  InputToText.sample_extract_text (py "docs/cv.TXT")
  = InputToText.sample_clean
      <$> InputToText.external (InputToText.sample_read (py "docs/cv.TXT")).
Proof.
  destruct (extract_text_routes_by_extension InputToText.ascii_only_lower
              InputToText.ascii_digit InputToText.Posix InputToText.sample_docx
              InputToText.sample_pdf InputToText.sample_read
              ascii_only_lower_ascii (py "docs/c") 118%N (py "TXT"))
    as (_ & _ & Htxt).
  - split; [discriminate | intros [H|H]; discriminate H].
  - apply Htxt. reflexivity.
Defined.

Lemma clean_cv_text_blank_witness :
  InputToText.sample_clean (py "  " ++ [10; 9]%N) = [].
Proof.
  apply clean_cv_text_blank. vm_compute.
  repeat (constructor; [reflexivity|]). constructor.
Defined.

Lemma clean_cv_text_normalized_witness :
  InputToText.normalized_whitespace
    (InputToText.sample_clean (py "  Hello   World " ++ [10%N])).
Proof.
  apply clean_cv_text_normalized.
  - vm_compute. repeat (constructor; [reflexivity|]). constructor.
  - vm_compute. reflexivity.
Defined.

Lemma label_maps_are_inverse_witness :
  Jobbert.label2id !! "B-SKILL"%string = Some 1 ∧
  Jobbert.id2label !! 1 = Some "B-SKILL"%string.
Proof.
  destruct (label_maps_are_inverse Jobbert.label_list label_list_NoDup)
    as (Hlist & Hinv & _).
  pose proof (proj1 (Hlist 1%nat "B-SKILL"%string) eq_refl) as Hl.
  split; [exact Hl|]. exact (proj1 (Hinv _ _) Hl).
Defined.
